(** * Smart PDF Reader: dictionary lookup, word geometry and the page render
      lifecycle, embedded from the TypeScript sources.

    - [src/lib/dictionaryApi.ts]    : [normalizeWord], [fetchDefinition]
    - [src/lib/pdfTextExtractor.ts] : [extractWordsFromTextContent],
                                      [findWordAtPoint]
    - the viewer component          : [cleanup], [cleanupDoc], [renderPage],
                                      [handlePageChange], the resize handler

    JavaScript strings are modelled as [string] whose characters are the code
    points U+0000..U+00FF; JavaScript numbers are IEEE binary64 values, the
    kernel's [float]; integer-valued numbers that only count characters
    (string lengths, [indexOf] results, the cursor [charOffset]) are [Z]. *)

From Stdlib Require Import ZArith NArith Bool Lia.
From Stdlib Require Import Ascii String DecimalString.
From Stdlib Require Import Floats.
From stdpp Require Import gmap strings.

Local Open Scope Z_scope.

(** ** JavaScript strings *)

Module JsString.

Definition code (c : ascii) : N := N_of_ascii c.

Definition between (lo hi : N) (c : ascii) : bool :=
  ((lo <=? code c) && (code c <=? hi))%N.

Definition isLower : ascii -> bool := between 97 122.
Definition isUpper : ascii -> bool := between 65 90.
Definition isDigit : ascii -> bool := between 48 57.

(** The regular-expression class [\s] and the characters [trim] removes,
    within U+0000..U+00FF: TAB, LF, VT, FF, CR, SPACE and NBSP. *)
Definition isWhiteSpace (c : ascii) : bool :=
  between 9 13 c || (code c =? 32)%N || (code c =? 160)%N.

(** The regular-expression class [\w]: [A-Za-z0-9_]. *)
Definition isWordChar (c : ascii) : bool :=
  isLower c || isUpper c || isDigit c || (code c =? 95)%N.

(** [String.prototype.toLowerCase] on one character: A-Z and the Latin-1
    capitals U+00C0..U+00DE (U+00D7, the multiplication sign, apart). *)
Definition toLowerChar (c : ascii) : ascii :=
  if isUpper c || (between 192 222 c && negb (code c =? 215)%N)
  then ascii_of_N (code c + 32)
  else c.

Fixpoint map (f : ascii -> ascii) (s : string) : string :=
  match s with
  | EmptyString => EmptyString
  | String c s' => String (f c) (map f s')
  end.

Fixpoint filter (p : ascii -> bool) (s : string) : string :=
  match s with
  | EmptyString => EmptyString
  | String c s' => if p c then String c (filter p s') else filter p s'
  end.

Fixpoint all (p : ascii -> bool) (s : string) : bool :=
  match s with
  | EmptyString => true
  | String c s' => p c && all p s'
  end.

Fixpoint any (p : ascii -> bool) (s : string) : bool :=
  match s with
  | EmptyString => false
  | String c s' => p c || any p s'
  end.

Definition isEmpty (s : string) : bool :=
  match s with EmptyString => true | _ => false end.

(** [s.length], as the integer it is. *)
Definition len (s : string) : Z := Z.of_nat (String.length s).

Definition toLowerCase : string -> string := map toLowerChar.

Fixpoint trimStart (s : string) : string :=
  match s with
  | EmptyString => EmptyString
  | String c s' => if isWhiteSpace c then trimStart s' else s
  end.

Fixpoint trimEnd (s : string) : string :=
  match s with
  | EmptyString => EmptyString
  | String c s' =>
      let t := trimEnd s' in
      if isWhiteSpace c && isEmpty t then EmptyString else String c t
  end.

Definition trim (s : string) : string := trimEnd (trimStart s).

End JsString.

(** ** [src/lib/dictionaryApi.ts]: normalizeWord *)

(** [word.toLowerCase().trim().replace(/[^a-z]/g, '')] *)
Definition normalized (word : string) : string :=
  JsString.filter JsString.isLower (JsString.trim (JsString.toLowerCase word)).

(** [/^[a-z]+$/.test(s)] *)
Definition lettersOnly (s : string) : bool :=
  negb (JsString.isEmpty s) && JsString.all JsString.isLower s.

Definition normalizeWord (word : string) : option string :=
  let n := normalized word in
  if (JsString.len n <? 2) || negb (lettersOnly n) then None else Some n.

(** ** [src/lib/dictionaryApi.ts]: fetchDefinition *)

Module Dictionary.

(** A value [JSON.parse] can produce. *)
#[warnings="-register-all"]
Inductive json : Type :=
| JNull
| JBool (b : bool)
| JNum (n : float)
| JStr (s : string)
| JArr (items : list json)
| JObj (members : list (string * json)).

(** A JavaScript value read back from parsed JSON: [None] is [undefined]. *)
Definition jsval : Type := option json.

(** What a [throw] carries, as far as the [catch] block tells values apart:
    [error instanceof Error ? error.message : 'network_error']. *)
Inductive Thrown : Type :=
| ErrorObj (message : string)
| NonError.

Inductive Completion (A : Type) : Type :=
| Returns (a : A)
| Throws (e : Thrown).
Arguments Returns {A} a.
Arguments Throws {A} e.

Definition bind {A B} (c : Completion A) (k : A -> Completion B)
  : Completion B :=
  match c with
  | Returns a => k a
  | Throws e => Throws e
  end.

Notation "'let*' x ':=' c 'in' k" := (bind c (fun x => k))
  (at level 10, x name, c at level 100, k at level 200).

Record DefinitionData : Type := {
  word : string;
  phonetic : jsval;
  definition : json;
  example : jsval;
  error : option string
}.

(** [fetch(url)] either rejects (transport failure) or resolves to a
    response with a status, whose [json()] rejects or resolves in turn. *)
Inductive BodyOutcome : Type :=
| JsonRejects (e : Thrown)
| JsonResolves (data : json).

Inductive FetchOutcome : Type :=
| FetchRejects (e : Thrown)
| FetchResolves (status : Z) (body : BodyOutcome).

(** [response.ok] *)
Definition ok (status : Z) : bool := (200 <=? status) && (status <=? 299).

(** The module-level [cache], and the requests sent so far. *)
Record Session : Type := {
  cache : gmap string DefinitionData;
  calls : list string
}.

Definition truthy (v : jsval) : bool :=
  match v with
  | None | Some JNull => false
  | Some (JBool b) => b
  | Some (JNum n) => negb (PrimFloat.is_zero n || PrimFloat.is_nan n)
  | Some (JStr s) => negb (JsString.isEmpty s)
  | Some (JArr _) | Some (JObj _) => true
  end.

(** [a || b] *)
Definition or_else (a b : jsval) : jsval := if truthy a then a else b.

(** An object's own member; of duplicate keys [JSON.parse] keeps the last. *)
Fixpoint member (name : string) (ms : list (string * json)) : jsval :=
  match ms with
  | [] => None
  | (k, v) :: ms' =>
      match member name ms' with
      | Some w => Some w
      | None => if String.eqb k name then Some v else None
      end
  end.

(** [o.name] on a receiver that is neither null nor undefined; none of the
    names read here is a property of a string, number, boolean or array. *)
Definition getProp (name : string) (o : json) : jsval :=
  match o with
  | JObj ms => member name ms
  | _ => None
  end.

(** [o[0]] on a receiver that is neither null nor undefined. *)
Definition getIndex0 (o : json) : jsval :=
  match o with
  | JArr items => head items
  | JStr (String c _) => Some (JStr (String c EmptyString))
  | JObj ms => member "0" ms
  | _ => None
  end.

(** [v?.name] and [v?.[0]] *)
Definition optProp (name : string) (v : jsval) : jsval :=
  match v with
  | None | Some JNull => None
  | Some o => getProp name o
  end.

Definition optIndex0 (v : jsval) : jsval :=
  match v with
  | None | Some JNull => None
  | Some o => getIndex0 o
  end.

Section Engine.

(** The message of the [TypeError] the engine raises on reading a member
    of null or calling what is not a function: the engine's own text. *)
Variable typeErrorMessage : string.

(** The network: the outcome of the [n]-th request, sent to [url]. *)
Variable net : nat -> string -> FetchOutcome.

Definition typeError {A} : Completion A :=
  Throws (ErrorObj typeErrorMessage).

(** [items.find((p) => p.text)] *)
Fixpoint findText (items : list json) : Completion jsval :=
  match items with
  | [] => Returns None
  | p :: rest =>
      match p with
      | JNull => typeError
      | _ => if truthy (getProp "text" p) then Returns (Some p)
             else findText rest
      end
  end.

(** [firstEntry?.phonetics?.find((p) => p.text)?.text] *)
Definition phoneticsText (firstEntry : jsval) : Completion jsval :=
  match optProp "phonetics" firstEntry with
  | None | Some JNull => Returns None
  | Some (JArr items) =>
      let* p := findText items in Returns (optProp "text" p)
  | Some _ => typeError
  end.

(** [data[0]] *)
Definition first (data : json) : Completion jsval :=
  match data with
  | JNull => typeError
  | _ => Returns (getIndex0 data)
  end.

(** The statements between [await response.json()] and [cache.set]. *)
Definition buildResult (normalizedWord : string) (data : json)
  : Completion DefinitionData :=
  let* firstEntry := first data in
  let firstMeaning := optIndex0 (optProp "meanings" firstEntry) in
  let firstDefinition := optIndex0 (optProp "definitions" firstMeaning) in
  let* phonetic :=
    (if truthy (optProp "phonetic" firstEntry)
     then Returns (optProp "phonetic" firstEntry)
     else let* t := phoneticsText firstEntry in
          Returns (or_else t (Some (JStr "")))) in
  let example := or_else (optProp "example" firstDefinition) None in
  let definition :=
    match or_else (optProp "definition" firstDefinition)
            (Some (JStr "No definition available")) with
    | Some d => d
    | None => JStr "No definition available"
    end in
  Returns {| word := normalizedWord;
             phonetic := or_else phonetic None;
             definition := definition;
             example := example;
             error := None |}.

Definition notFound (normalizedWord : string) : DefinitionData :=
  {| word := normalizedWord;
     phonetic := None;
     definition :=
       JStr ("Meaning not available for '" +:+ normalizedWord +:+ "'");
     example := None;
     error := Some "not_found" |}.

(** The entry the [catch] block builds. *)
Definition fetchFailed (normalizedWord : string) (e : Thrown)
  : DefinitionData :=
  {| word := normalizedWord;
     phonetic := None;
     definition :=
       JStr ("Unable to fetch meaning for '" +:+ normalizedWord +:+ "'");
     example := None;
     error := Some match e with
                   | ErrorObj message => message
                   | NonError => "network_error"
                   end |}.

Definition decimal (n : Z) : string :=
  NilZero.string_of_int (Z.to_int n).

(** [encodeURIComponent] leaves the letters a-z, all a key holds, as they
    are. *)
Definition lookupUrl (normalizedWord : string) : string :=
  "https://api.dictionaryapi.dev/api/v2/entries/en/" +:+ normalizedWord.

(** The [try] block: the entry it returns, with the cache as it leaves
    it, or what it throws (in which case the cache was not written). *)
Definition tryFetch (normalizedWord : string) (outcome : FetchOutcome)
    (c : gmap string DefinitionData)
  : Completion (DefinitionData * gmap string DefinitionData) :=
  match outcome with
  | FetchRejects e => Throws e
  | FetchResolves status body =>
      if negb (ok status) then
        if status =? 404 then
          let errorData := notFound normalizedWord in
          Returns (errorData, <[normalizedWord := errorData]> c)
        else Throws (ErrorObj ("HTTP error " +:+ decimal status))
      else
        match body with
        | JsonRejects e => Throws e
        | JsonResolves data =>
            let* result := buildResult normalizedWord data in
            Returns (result, <[normalizedWord := result]> c)
        end
  end.

Definition fetchDefinition (rawWord : string) (s : Session)
  : Completion DefinitionData * Session :=
  match normalizeWord rawWord with
  | None => (Throws (ErrorObj "Invalid word format"), s)
  | Some normalizedWord =>
      match cache s !! normalizedWord with
      | Some cached => (Returns cached, s)
      | None =>
          let url := lookupUrl normalizedWord in
          let outcome := net (length (calls s)) url in
          let calls' := calls s ++ [url] in
          match tryFetch normalizedWord outcome (cache s) with
          | Returns (d, c') =>
              (Returns d, {| cache := c'; calls := calls' |})
          | Throws e =>
              (Returns (fetchFailed normalizedWord e),
               {| cache := cache s; calls := calls' |})
          end
      end
  end.

End Engine.

End Dictionary.

(** ** [src/lib/dictionaryApi.ts]: clearCache, and sessions of calls *)

Module DictionaryOps.
Import Dictionary.

(** [cache.clear()]; the requests already sent stay sent. *)
Definition clearCache (s : Session) : Session :=
  {| cache := ∅; calls := calls s |}.

(** A call of one of the module's two exports that touch the cache. *)
Inductive Op : Type :=
| Lookup (rawWord : string)
| ClearCache.

(** The module as loaded: [new Map()], and nothing requested yet. *)
Definition fresh : Session := {| cache := ∅; calls := [] |}.

Section Engine.

Variable typeErrorMessage : string.
Variable net : nat -> string -> FetchOutcome.

Definition perform (s : Session) (op : Op) : Session :=
  match op with
  | Lookup rawWord => snd (fetchDefinition typeErrorMessage net rawWord s)
  | ClearCache => clearCache s
  end.

Definition session (ops : list Op) : Session := fold_left perform ops fresh.

End Engine.

(** Every entry is stored under its own word, a key [normalizeWord] leaves
    as it is, and carries no error marker but "not_found". *)
Definition WellKeyed (c : gmap string DefinitionData) : Prop :=
  forall key d,
    c !! key = Some d ->
    word d = key /\ normalizeWord key = Some key /\
    (error d = None \/ error d = Some "not_found").

(** A [null] among [items] with no element before it whose [text] is
    truthy: where [find((p) => p.text)] reads [text] of [null]. *)
Definition NullBeforeText (items : list json) : Prop :=
  exists before after,
    items = before ++ JNull :: after /\
    forall p, In p before -> truthy (getProp "text" p) = false.

(** What [firstEntry?.phonetics?.find(...)] cannot be called on, or fails
    on. *)
Definition BadPhonetics (phonetics : jsval) : Prop :=
  match phonetics with
  | None | Some JNull => False
  | Some (JArr items) => NullBeforeText items
  | Some _ => True
  end.

(** A body as the dictionary service sends it for "hello". *)
Definition helloBody : json :=
  JArr [JObj [("word", JStr "hello");
              ("phonetic", JStr "/h@'l@U/");
              ("meanings",
               JArr [JObj [("partOfSpeech", JStr "noun");
                           ("definitions",
                            JArr [JObj [("definition", JStr "A greeting.");
                                        ("example", JStr "hello there")]])]])]].

End DictionaryOps.

(** ** [src/lib/pdfTextExtractor.ts] *)

Module Js.

(** The number a string length, an index or the cursor is. *)
Definition num (n : Z) : float := PrimFloat.of_uint63 (Uint63.of_Z n).

(** [Math.max(a, b)]: NaN if either is; of the two zeros, the positive. *)
Definition Math_max (a b : float) : float :=
  if PrimFloat.is_nan a || PrimFloat.is_nan b then PrimFloat.nan
  else if (a <? b)%float then b
  else if (b <? a)%float then a
  else if PrimFloat.is_zero a && PrimFloat.get_sign a then b else a.

Definition Math_abs : float -> float := PrimFloat.abs.
Definition Math_sqrt : float -> float := PrimFloat.sqrt.

(** [s.split(/\s+/)]: the pieces between maximal runs of white space, an
    empty piece at either end when the string starts or ends with one. *)
Fixpoint splitFrom (inSeparator : bool) (s : string) : list string :=
  match s with
  | EmptyString => [EmptyString]
  | String c s' =>
      if JsString.isWhiteSpace c then
        if inSeparator then splitFrom true s'
        else EmptyString :: splitFrom true s'
      else
        match splitFrom false s' with
        | piece :: rest => String c piece :: rest
        | [] => [String c EmptyString]
        end
  end.

Definition splitWhiteSpace (s : string) : list string := splitFrom false s.

Fixpoint drop (n : nat) (s : string) : string :=
  match n, s with
  | S n', String _ s' => drop n' s'
  | _, _ => s
  end.

(** The first position at or after [at_], the position of the first
    character of [s], where [w] starts; -1 if there is none. *)
Fixpoint search (w s : string) (at_ : Z) : Z :=
  if String.prefix w s then at_
  else match s with
       | EmptyString => -1
       | String _ s' => search w s' (at_ + 1)
       end.

(** [s.indexOf(w, position)] *)
Definition indexOf (s w : string) (position : Z) : Z :=
  let start := Z.min (Z.max position 0) (JsString.len s) in
  search w (drop (Z.to_nat start) s) start.

End Js.

Module Extractor.
Import Js.

Record WordRect : Type := {
  word : string;
  x : float;
  y : float;
  width : float;
  height : float;
  centerX : float;
  centerY : float
}.

(** The six entries [a, b, c, d, e, f] of a text item's transform. *)
Record Transform : Type := {
  ta : float; tb : float; tc : float; td : float; te : float; tf : float
}.

(** A text item; [str] is [None] when the item has no string [str]. *)
Record TextItem : Type := {
  str : option string;
  transform : Transform;
  itemWidth : float
}.

Record Viewport : Type := {
  viewportWidth : float;
  viewportHeight : float
}.

(** The loop variables of the inner [for]: the rectangles pushed so far
    (in order) and [charOffset]. *)
Record Cursor : Type := {
  pushed : list WordRect;
  charOffset : Z
}.

(** The loop variables before the first turn. *)
Definition start : Cursor := {| pushed := []; charOffset := 0 |}.

(** [word.replace(/[^\w'-]/g, '')] *)
Definition keptChar (c : ascii) : bool :=
  JsString.isWordChar c
  || (JsString.code c =? 39)%N || (JsString.code c =? 45)%N.

Definition cleanWordOf (token : string) : string :=
  JsString.filter keptChar token.

Definition minHeight : float := 12%float.

Definition effectiveHeightOf (t : Transform) : float :=
  Math_max (Math_abs (td t)) minHeight.

Definition charWidthOf (s : string) (totalWidth : float) : float :=
  if 0 <? JsString.len s then (totalWidth / num (JsString.len s))%float
  else 0%float.

(** The rectangle pushed for [token] found at [wordIndexInStr]. *)
Definition rectOf (viewport : Viewport) (t : Transform) (charWidth : float)
    (token : string) (wordIndexInStr : Z) : WordRect :=
  let effectiveHeight := effectiveHeightOf t in
  let wordStartX := (te t + num wordIndexInStr * charWidth)%float in
  let wordWidth := (charWidth * num (JsString.len token))%float in
  let x := wordStartX in
  let y := (viewportHeight viewport - tf t - effectiveHeight)%float in
  let width := wordWidth in
  let height := effectiveHeight in
  {| word := cleanWordOf token;
     x := x; y := y; width := width; height := height;
     centerX := (x + width / 2)%float;
     centerY := (y + height / 2)%float |}.

(** One turn of the inner loop. *)
Definition wordStep (viewport : Viewport) (s : string) (t : Transform)
    (charWidth : float) (cur : Cursor) (token : string) : Cursor :=
  if JsString.len (cleanWordOf token) =? 0 then
    {| pushed := pushed cur;
       charOffset := charOffset cur + (JsString.len token + 1) |}
  else
    let wordIndexInStr := indexOf s token (charOffset cur) in
    if wordIndexInStr =? -1 then
      {| pushed := pushed cur;
         charOffset := charOffset cur + (JsString.len token + 1) |}
    else
      {| pushed :=
           pushed cur ++ [rectOf viewport t charWidth token wordIndexInStr];
         charOffset := wordIndexInStr + JsString.len token + 1 |}.

(** [item.str.split(/\s+/).filter((w) => w.trim().length > 0)] *)
Definition textWordsOf (s : string) : list string :=
  List.filter (fun w => 0 <? JsString.len (JsString.trim w))
    (splitWhiteSpace s).

(** One turn of the outer loop: the rectangles one item adds. *)
Definition itemWords (viewport : Viewport) (item : TextItem)
  : list WordRect :=
  match str item with
  | None => []
  | Some s =>
      if JsString.isEmpty (JsString.trim s) then []
      else
        let charWidth := charWidthOf s (itemWidth item) in
        pushed
          (fold_left (wordStep viewport s (transform item) charWidth)
             (textWordsOf s) start)
  end.

(** [textContent] is [None] when it is null or has no [items]. *)
Definition extractWordsFromTextContent
    (textContent : option (list TextItem)) (viewport : Viewport)
  : list WordRect :=
  match textContent with
  | None => []
  | Some items =>
      let words := flat_map (itemWords viewport) items in
      List.filter (fun w => 0 <? JsString.len (word w)) words
  end.

(** The test of the first loop of [findWordAtPoint]. *)
Definition inside (w : WordRect) (px py threshold : float) : bool :=
  ((x w - threshold <=? px) && (px <=? x w + width w + threshold)
   && (y w - threshold <=? py) && (py <=? y w + height w + threshold))%float.

Fixpoint firstInside (words : list WordRect) (px py threshold : float)
  : option WordRect :=
  match words with
  | [] => None
  | w :: rest =>
      if inside w px py threshold then Some w
      else firstInside rest px py threshold
  end.

Definition distanceTo (w : WordRect) (px py : float) : float :=
  let dx := (px - centerX w)%float in
  let dy := (py - centerY w)%float in
  Math_sqrt (dx * dx + dy * dy).

(** The second loop, from given values of [nearest] and [minDistance]. *)
Fixpoint nearestFrom (words : list WordRect) (px py : float)
    (nearest : option WordRect) (minDistance : float) : option WordRect :=
  match words with
  | [] => nearest
  | w :: rest =>
      let distance := distanceTo w px py in
      if (distance <? minDistance)%float
      then nearestFrom rest px py (Some w) distance
      else nearestFrom rest px py nearest minDistance
  end.

Definition findWordAtPoint (words : list WordRect) (px py threshold : float)
  : option WordRect :=
  match firstInside words px py threshold with
  | Some w => Some w
  | None => nearestFrom words px py None (threshold * 2)%float
  end.

End Extractor.

(** ** Positions of the pieces of a split, and inputs to try the functions on *)

Module Pieces.
Import Js.

(** The pieces of [splitFrom], each with the position it starts at. *)
Fixpoint splitPos (inSeparator : bool) (s : string) (pos : nat)
  : list (nat * string) :=
  match s with
  | EmptyString => [(pos, EmptyString)]
  | String c s' =>
      if JsString.isWhiteSpace c then
        if inSeparator then splitPos true s' (S pos)
        else (pos, EmptyString) :: splitPos true s' (S pos)
      else
        match splitPos false s' (S pos) with
        | (_, piece) :: rest => (pos, String c piece) :: rest
        | [] => [(pos, String c EmptyString)]
        end
  end.

(** Pieces that occur in [whole] where they say, each starting at or after
    [lo] and more than its length before the next. *)
Fixpoint Chain (whole : string) (lo : nat) (toks : list (nat * string))
  : Prop :=
  match toks with
  | [] => True
  | (p, w) :: rest =>
      (lo <= p)%nat /\ (p <= String.length whole)%nat /\
      String.prefix w (drop p whole) = true /\
      Chain whole (p + String.length w + 1) rest
  end.

(** White space at position [i] of [s]. *)
Definition whiteAt (s : string) (i : nat) : Prop :=
  exists c, String.get i s = Some c /\ JsString.isWhiteSpace c = true.

(** Position [p] starts the string or follows white space; position [q]
    ends the string or holds white space. *)
Definition startsAt (s : string) (p : nat) : Prop :=
  p = 0%nat \/ whiteAt s (p - 1).

Definition endsAt (s : string) (q : nat) : Prop :=
  String.get q s = None \/ whiteAt s q.

Definition noWhiteSpace (w : string) : Prop :=
  JsString.any JsString.isWhiteSpace w = false.

(** [w] is a token of [s] at offset [p]: a non-empty stretch of [s] free of
    white space, bounded by white space or the ends of [s]. *)
Definition Token (s : string) (p : nat) (w : string) : Prop :=
  w <> EmptyString /\ noWhiteSpace w /\
  String.prefix w (drop p s) = true /\
  startsAt s p /\ endsAt s (p + String.length w).

(** The tokens of [s] with their offsets, in order. *)
Definition tokensOf (s : string) : list (nat * string) :=
  List.filter (fun pw => negb (JsString.isEmpty (snd pw)))
    (splitPos false s 0).

(** Pieces of [whole] in order, each bounded as a token is, with nothing
    but white space from [from] to the first and between one and the
    next. *)
Fixpoint Spaced (whole : string) (from : nat) (toks : list (nat * string))
  : Prop :=
  match toks with
  | [] => True
  | (p, w) :: rest =>
      (from <= p <= String.length whole)%nat /\
      (forall i, (from <= i < p)%nat -> whiteAt whole i) /\
      startsAt whole p /\ endsAt whole (p + String.length w) /\
      String.prefix w (drop p whole) = true /\
      noWhiteSpace w /\
      Spaced whole (p + String.length w) rest
  end.

End Pieces.

Module Samples.
Import Js Extractor.

(** The characters the words "letter, digit, apostrophe or hyphen" name. *)
Definition letterDigitApostropheHyphen (c : ascii) : bool :=
  JsString.isLower c || JsString.isUpper c || JsString.isDigit c
  || (JsString.code c =? 39)%N || (JsString.code c =? 45)%N.

Definition underscoreRun : TextItem :=
  {| str := Some "_";
     transform := {| ta := 10; tb := 0; tc := 0; td := 10;
                     te := 100; tf := 700 |};
     itemWidth := 10 |}.

(** The run "hello world" with a given transform and width. *)
Definition helloWorld (t : Transform) (runWidth : float) : TextItem :=
  {| str := Some "hello world"; transform := t; itemWidth := runWidth |}.

Definition viewport800 : Viewport :=
  {| viewportWidth := 600; viewportHeight := 800 |}.

(** A 10 by 10 rectangle with its top left corner at ([left], 0). *)
Definition square (name : string) (left : float) : WordRect :=
  {| word := name; x := left; y := 0; width := 10; height := 10;
     centerX := (left + 5)%float; centerY := 5 |}.

End Samples.

(** ** The viewer component: state, teardown, rendering and navigation *)

Module Viewer.

(** Handles of the document service. *)
Definition Doc : Type := nat.
Definition Page : Type := nat.

(** The task [page.render(renderContext)] returns. *)
Inductive Task : Type := RenderTask (page : Page).

(** Calls the component makes on its collaborators and on the page. *)
Inductive Effect : Type :=
| Cancel (task : Task)
| CleanupPage (page : Page)
| Destroy (doc : Doc)
| ClosePopup.

(** The component's state: the [useState] values, the [useRef] cells and
    the calls made so far. *)
Record State : Type := {
  loading : bool;
  error : option string;
  rendered : bool;
  currentPage : Z;
  numPages : Z;
  renderingPage : bool;
  hasTextLayer : bool;
  noTextForPage : bool;
  pdfDocRef : option Doc;
  pdfPageRef : option Page;
  renderTaskRef : option Task;
  renderTokenRef : Z;
  needsRerender : bool;
  effects : list Effect
}.

Definition set_loading (a : bool) (v : State) : State :=
  {| loading := a;
     error := error v;
     rendered := rendered v;
     currentPage := currentPage v;
     numPages := numPages v;
     renderingPage := renderingPage v;
     hasTextLayer := hasTextLayer v;
     noTextForPage := noTextForPage v;
     pdfDocRef := pdfDocRef v;
     pdfPageRef := pdfPageRef v;
     renderTaskRef := renderTaskRef v;
     renderTokenRef := renderTokenRef v;
     needsRerender := needsRerender v;
     effects := effects v |}.

Definition set_error (a : option string) (v : State) : State :=
  {| loading := loading v;
     error := a;
     rendered := rendered v;
     currentPage := currentPage v;
     numPages := numPages v;
     renderingPage := renderingPage v;
     hasTextLayer := hasTextLayer v;
     noTextForPage := noTextForPage v;
     pdfDocRef := pdfDocRef v;
     pdfPageRef := pdfPageRef v;
     renderTaskRef := renderTaskRef v;
     renderTokenRef := renderTokenRef v;
     needsRerender := needsRerender v;
     effects := effects v |}.

Definition set_rendered (a : bool) (v : State) : State :=
  {| loading := loading v;
     error := error v;
     rendered := a;
     currentPage := currentPage v;
     numPages := numPages v;
     renderingPage := renderingPage v;
     hasTextLayer := hasTextLayer v;
     noTextForPage := noTextForPage v;
     pdfDocRef := pdfDocRef v;
     pdfPageRef := pdfPageRef v;
     renderTaskRef := renderTaskRef v;
     renderTokenRef := renderTokenRef v;
     needsRerender := needsRerender v;
     effects := effects v |}.

Definition set_currentPage (a : Z) (v : State) : State :=
  {| loading := loading v;
     error := error v;
     rendered := rendered v;
     currentPage := a;
     numPages := numPages v;
     renderingPage := renderingPage v;
     hasTextLayer := hasTextLayer v;
     noTextForPage := noTextForPage v;
     pdfDocRef := pdfDocRef v;
     pdfPageRef := pdfPageRef v;
     renderTaskRef := renderTaskRef v;
     renderTokenRef := renderTokenRef v;
     needsRerender := needsRerender v;
     effects := effects v |}.

Definition set_numPages (a : Z) (v : State) : State :=
  {| loading := loading v;
     error := error v;
     rendered := rendered v;
     currentPage := currentPage v;
     numPages := a;
     renderingPage := renderingPage v;
     hasTextLayer := hasTextLayer v;
     noTextForPage := noTextForPage v;
     pdfDocRef := pdfDocRef v;
     pdfPageRef := pdfPageRef v;
     renderTaskRef := renderTaskRef v;
     renderTokenRef := renderTokenRef v;
     needsRerender := needsRerender v;
     effects := effects v |}.

Definition set_hasTextLayer (a : bool) (v : State) : State :=
  {| loading := loading v;
     error := error v;
     rendered := rendered v;
     currentPage := currentPage v;
     numPages := numPages v;
     renderingPage := renderingPage v;
     hasTextLayer := a;
     noTextForPage := noTextForPage v;
     pdfDocRef := pdfDocRef v;
     pdfPageRef := pdfPageRef v;
     renderTaskRef := renderTaskRef v;
     renderTokenRef := renderTokenRef v;
     needsRerender := needsRerender v;
     effects := effects v |}.

Definition set_noTextForPage (a : bool) (v : State) : State :=
  {| loading := loading v;
     error := error v;
     rendered := rendered v;
     currentPage := currentPage v;
     numPages := numPages v;
     renderingPage := renderingPage v;
     hasTextLayer := hasTextLayer v;
     noTextForPage := a;
     pdfDocRef := pdfDocRef v;
     pdfPageRef := pdfPageRef v;
     renderTaskRef := renderTaskRef v;
     renderTokenRef := renderTokenRef v;
     needsRerender := needsRerender v;
     effects := effects v |}.

Definition set_pdfDocRef (a : option Doc) (v : State) : State :=
  {| loading := loading v;
     error := error v;
     rendered := rendered v;
     currentPage := currentPage v;
     numPages := numPages v;
     renderingPage := renderingPage v;
     hasTextLayer := hasTextLayer v;
     noTextForPage := noTextForPage v;
     pdfDocRef := a;
     pdfPageRef := pdfPageRef v;
     renderTaskRef := renderTaskRef v;
     renderTokenRef := renderTokenRef v;
     needsRerender := needsRerender v;
     effects := effects v |}.

Definition set_pdfPageRef (a : option Page) (v : State) : State :=
  {| loading := loading v;
     error := error v;
     rendered := rendered v;
     currentPage := currentPage v;
     numPages := numPages v;
     renderingPage := renderingPage v;
     hasTextLayer := hasTextLayer v;
     noTextForPage := noTextForPage v;
     pdfDocRef := pdfDocRef v;
     pdfPageRef := a;
     renderTaskRef := renderTaskRef v;
     renderTokenRef := renderTokenRef v;
     needsRerender := needsRerender v;
     effects := effects v |}.

Definition set_renderTaskRef (a : option Task) (v : State) : State :=
  {| loading := loading v;
     error := error v;
     rendered := rendered v;
     currentPage := currentPage v;
     numPages := numPages v;
     renderingPage := renderingPage v;
     hasTextLayer := hasTextLayer v;
     noTextForPage := noTextForPage v;
     pdfDocRef := pdfDocRef v;
     pdfPageRef := pdfPageRef v;
     renderTaskRef := a;
     renderTokenRef := renderTokenRef v;
     needsRerender := needsRerender v;
     effects := effects v |}.

Definition set_needsRerender (a : bool) (v : State) : State :=
  {| loading := loading v;
     error := error v;
     rendered := rendered v;
     currentPage := currentPage v;
     numPages := numPages v;
     renderingPage := renderingPage v;
     hasTextLayer := hasTextLayer v;
     noTextForPage := noTextForPage v;
     pdfDocRef := pdfDocRef v;
     pdfPageRef := pdfPageRef v;
     renderTaskRef := renderTaskRef v;
     renderTokenRef := renderTokenRef v;
     needsRerender := a;
     effects := effects v |}.

Definition set_effects (a : list Effect) (v : State) : State :=
  {| loading := loading v;
     error := error v;
     rendered := rendered v;
     currentPage := currentPage v;
     numPages := numPages v;
     renderingPage := renderingPage v;
     hasTextLayer := hasTextLayer v;
     noTextForPage := noTextForPage v;
     pdfDocRef := pdfDocRef v;
     pdfPageRef := pdfPageRef v;
     renderTaskRef := renderTaskRef v;
     renderTokenRef := renderTokenRef v;
     needsRerender := needsRerender v;
     effects := a |}.

(** What the page offers the component. *)
Record Env : Type := {
  canvas : bool;            (* [canvasRef.current] is set *)
  context2d : bool          (* [canvas.getContext('2d')] is not null *)
}.

Definition emit (e : Effect) (v : State) : State :=
  set_effects (effects v ++ [e]) v.

(** How a statement ends: normally, or by throwing what a collaborator
    threw. *)
Inductive Outcome : Type :=
| Normal
| Abrupt (thrownBy : Effect).

Definition Stmt : Type := State -> Outcome * State.

Definition assign (f : State -> State) : Stmt := fun v => (Normal, f v).

Definition seq (a b : Stmt) : Stmt :=
  fun v =>
    match a v with
    | (Normal, v') => b v'
    | (Abrupt e, v') => (Abrupt e, v')
    end.

(** [try { a } catch (e) { }] *)
Definition tryIgnoring (a : Stmt) : Stmt := fun v => (Normal, snd (a v)).

(** [if (ref.current) { body }] *)
Definition whenSet {A} (ref : State -> option A) (body : A -> Stmt) : Stmt :=
  fun v =>
    match ref v with
    | Some a => body a v
    | None => (Normal, v)
    end.

Notation "a >> b" := (seq a b) (at level 62, right associativity).

Section Teardown.

(** The collaborator calls that throw. *)
Variable throws : Effect -> bool.

Definition call (e : Effect) : Stmt :=
  fun v => (if throws e then Abrupt e else Normal, emit e v).

Definition cleanup : Stmt :=
  whenSet renderTaskRef (fun task =>
    tryIgnoring (call (Cancel task)) >>
    assign (set_renderTaskRef None)) >>
  whenSet pdfPageRef (fun page =>
    tryIgnoring (call (CleanupPage page)) >>
    assign (set_pdfPageRef None)).

Definition cleanupDoc : Stmt :=
  cleanup >>
  whenSet pdfDocRef (fun doc =>
    tryIgnoring (call (Destroy doc)) >>
    assign (set_pdfDocRef None)).

End Teardown.

(** What [cleanupDoc] leaves: the calls made, and the three references
    null. *)
Definition teardownCalls (v : State) : list Effect :=
  match renderTaskRef v with Some task => [Cancel task] | None => [] end
  ++ match pdfPageRef v with Some page => [CleanupPage page] | None => [] end
  ++ match pdfDocRef v with Some doc => [Destroy doc] | None => [] end.

Definition tornDown (v : State) : State :=
  set_pdfDocRef None
    (set_pdfPageRef None
       (set_renderTaskRef None
          (set_effects (effects v ++ teardownCalls v) v))).

(** *** renderPage, handlePageChange and the resize callback *)

Section Rendering.

Variable env : Env.

(** The message of the [ReferenceError] an engine throws when it reads an
    identifier that no declaration binds; V8 and SpiderMonkey say
    "localToken is not defined". *)
Variable referenceErrorMessage : string.

Definition referenceError : Dictionary.Thrown :=
  Dictionary.ErrorObj referenceErrorMessage.

(** [renderPage(pageNum)], read with the [}] and the [try {] that the
    indentation shows are missing after line 210.  Past its three guards
    the function reads [localToken] (line 201, in the first log message).
    Nothing in the file declares [localToken], so the read throws a
    [ReferenceError]: outside the [try], before [setRenderingPage(true)],
    [cleanup()] and [pdfDoc.getPage(pageNum)].  The call changes nothing,
    the promise it returns is rejected, and no statement after line 201,
    [pageNum] with them, is ever reached. *)
Definition renderPage (pageNum : Z) (v : State)
  : Dictionary.Completion bool :=
  if negb (canvas env) then Dictionary.Returns false
  else
    match pdfDocRef v with
    | None => Dictionary.Returns false
    | Some pdfDoc =>
        if negb (context2d env) then Dictionary.Returns false
        else Dictionary.Throws referenceError
    end.

(** The rest of [handlePageChange(newPage)], [await renderPage(newPage)]
    having settled with [c]: the state left, and how the call ends. *)
Definition pageChanged (newPage : Z) (c : Dictionary.Completion bool)
    (v : State) : State * Dictionary.Completion unit :=
  match c with
  | Dictionary.Returns success =>
      (if success then set_currentPage newPage v else v,
       Dictionary.Returns tt)
  | Dictionary.Throws e => (v, Dictionary.Throws e)
  end.

(** [handlePageChange(newPage)]; [None] when a guard returns before
    [onClosePopup()]. *)
Definition handlePageChange (newPage : Z) (v : State)
  : option (State * Dictionary.Completion unit) :=
  if (newPage <? 1) || (numPages v <? newPage)
     || (newPage =? currentPage v) then None
  else if renderingPage v then None
  else
    let v1 := emit ClosePopup v in
    Some (pageChanged newPage (renderPage newPage v1) v1).

(** The debounced callback of [handleResize]: the state it leaves and the
    page it calls [renderPage] with, if it calls it (nothing awaits that
    call, which changes nothing).  The effect sets the listener up only
    while [rendered] holds. *)
Definition handleResize (v : State) : State * option Z :=
  if negb (rendered v) then (v, None)
  else if renderingPage v then (set_needsRerender true v, None)
  else (v, Some (currentPage v)).

End Rendering.

(** The component, and the page numbers [renderPage] was called with so
    far. *)
Record System : Type := {
  state : State;
  started : list Z
}.

Definition withState (v : State) (s : System) : System :=
  {| state := v; started := started s |}.

(** *** States to try the functions on *)

(** What a three-page document with its first page rendered and its text
    layer built would leave. *)
Definition loaded : State :=
  {| loading := false; error := None; rendered := true;
     currentPage := 1; numPages := 3; renderingPage := false;
     hasTextLayer := true; noTextForPage := false;
     pdfDocRef := Some 7%nat; pdfPageRef := Some 10%nat;
     renderTaskRef := None; renderTokenRef := 0;
     needsRerender := false; effects := [] |}.

Definition browser : Env := {| canvas := true; context2d := true |}.

Definition idle : System := {| state := loaded; started := [] |}.

End Viewer.

(** ** The viewer component: from a click on the text layer to a word *)

Module Selection.
Import Viewer.

(** The class [\p{P}] within U+0000..U+00FF: the code points 33 to 35,
    37 to 42, 44 to 47, 58, 59, 63, 64, 91 to 93, 95, 123, 125 (exclamation
    mark to number sign, percent sign to asterisk, comma to solidus, colon,
    semicolon, question mark, commercial at, the square brackets and the
    reverse solidus, low line, the curly brackets) and the Latin-1 marks
    U+00A1, U+00A7, U+00AB, U+00B6, U+00B7, U+00BB, U+00BF. *)
Definition isPunctuation (c : ascii) : bool :=
  let n := JsString.code c in
  (JsString.between 33 35 c || JsString.between 37 42 c
   || JsString.between 44 47 c || JsString.between 58 59 c
   || JsString.between 63 64 c || JsString.between 91 93 c
   || (n =? 95) || (n =? 123) || (n =? 125)
   || (n =? 161) || (n =? 167) || (n =? 171) || (n =? 182) || (n =? 183)
   || (n =? 187) || (n =? 191))%N.

(** The class [[\s\p{P}]]. *)
Definition isSeparator (c : ascii) : bool :=
  JsString.isWhiteSpace c || isPunctuation c.

(** [s.split(/[\s\p{P}]+/u)]: the pieces between maximal runs of
    separators, an empty piece at either end when the string starts or ends
    with one. *)
Fixpoint splitFrom (inSeparator : bool) (s : string) : list string :=
  match s with
  | EmptyString => [EmptyString]
  | String c s' =>
      if isSeparator c then
        if inSeparator then splitFrom true s'
        else EmptyString :: splitFrom true s'
      else
        match splitFrom false s' with
        | piece :: rest => String c piece :: rest
        | [] => [String c EmptyString]
        end
  end.

(** [selectedText.split(/[\s\p{P}]+/u).filter(w => w.length > 0)] and
    [words[0] || ''] *)
Definition wordsOf (selectedText : string) : list string :=
  List.filter (fun w => 0 <? JsString.len w) (splitFrom false selectedText).

Definition firstWordOf (selectedText : string) : string :=
  match wordsOf selectedText with
  | w :: _ => w
  | [] => EmptyString
  end.

(** [s] without the separators it starts with, and [s] up to its first
    separator. *)
Fixpoint afterSeparators (s : string) : string :=
  match s with
  | EmptyString => EmptyString
  | String c s' => if isSeparator c then afterSeparators s' else s
  end.

Fixpoint untilSeparator (s : string) : string :=
  match s with
  | EmptyString => EmptyString
  | String c s' =>
      if isSeparator c then EmptyString else String c (untilSeparator s')
  end.

(** What the handlers read of the event and of the page: the selection
    ([None] when [window.getSelection()] is null) with its [rangeCount] and
    its text, the text content of the target ([None] when the target is no
    element or has none), and where the pointer was. *)
Record Gesture : Type := {
  selection : option (nat * string);
  targetText : option string;
  point : option (float * float)
}.

(** The text the handlers go on with, if any. *)
Definition selectedTextOf (g : Gesture) : option string :=
  match selection g with
  | None => None
  | Some (rangeCount, text) =>
      if (rangeCount =? 0)%nat then None
      else
        let selectedText := JsString.trim text in
        let selectedText :=
          if JsString.isEmpty selectedText then
            match targetText g with
            | Some t => JsString.trim t
            | None => EmptyString
            end
          else selectedText in
        if JsString.isEmpty selectedText then None else Some selectedText
  end.

(** [handleTextLayerClick] and [handleTextLayerTouch]: the call of
    [onWordClick] they make, if any.  A click always has its point
    ([event.pageX], [event.pageY]); a touch has one when
    [changedTouches[0] || touches[0]] is set. *)
Definition handleTextLayerGesture (v : State) (g : Gesture)
  : option (string * float * float) :=
  if renderingPage v || negb (hasTextLayer v) then None
  else
    match selectedTextOf g with
    | None => None
    | Some selectedText =>
        match normalizeWord (firstWordOf selectedText) with
        | None => None
        | Some normalized =>
            match point g with
            | Some (px, py) => Some (normalized, px, py)
            | None => None
            end
        end
    end.

End Selection.

(** ** The application: the popup and its handlers *)

Module App.
Import Dictionary.

Record PopupState : Type := {
  visible : bool;
  x : float;
  y : float;
  word : string;
  loading : bool;
  data : option DefinitionData;
  error : option string
}.

(** The popup as [useState] starts it and as the handlers reset it. *)
Definition hidden : PopupState :=
  {| visible := false; x := 0; y := 0; word := EmptyString;
     loading := false; data := None; error := None |}.

(** [handleWordClick(word, x, y)] up to [await fetchDefinition(word)]. *)
Definition handleWordClick (clicked : string) (px py : float)
  : PopupState :=
  {| visible := true; x := (px + 16)%float; y := (py + 16)%float;
     word := clicked; loading := true; data := None; error := None |}.

(** The rest of [handleWordClick], [fetchDefinition] having settled with
    [c], on the popup as it is by then. *)
Definition definitionSettled (c : Completion DefinitionData)
    (prev : PopupState) : PopupState :=
  match c with
  | Returns definition =>
      {| visible := visible prev; x := x prev; y := y prev;
         word := word prev; loading := false; data := Some definition;
         error := error prev |}
  | Throws e =>
      match e with
      | ErrorObj message =>
          if String.eqb message "Invalid word format" then hidden
          else
            {| visible := visible prev; x := x prev; y := y prev;
               word := word prev; loading := false; data := data prev;
               error := Some message |}
      | NonError =>
          {| visible := visible prev; x := x prev; y := y prev;
             word := word prev; loading := false; data := data prev;
             error := Some "Failed to fetch definition" |}
      end
  end.

Inductive Event : Type :=
| FileSelected                                     (* [handleFileSelect] *)
| WordClicked (clicked : string) (px py : float)   (* [handleWordClick] *)
| DefinitionSettled (c : Completion DefinitionData)
| PopupClosed.                                     (* [handleClosePopup] *)

Definition step (p : PopupState) (e : Event) : PopupState :=
  match e with
  | FileSelected => hidden
  | WordClicked clicked px py => handleWordClick clicked px py
  | DefinitionSettled c => definitionSettled c p
  | PopupClosed => hidden
  end.

Definition run (p : PopupState) (events : list Event) : PopupState :=
  fold_left step events p.

(** [c] is what some call of [fetchDefinition] settles with. *)
Definition FromLookup (c : Completion DefinitionData) : Prop :=
  exists typeErrorMessage net rawWord s,
    c = fst (fetchDefinition typeErrorMessage net rawWord s).

(** The events in which every settled lookup is one of [fetchDefinition]. *)
Definition Genuine (e : Event) : Prop :=
  match e with
  | DefinitionSettled c => FromLookup c
  | _ => True
  end.

End App.

(** ** The viewer component: the page buttons, the arrow keys, resizes *)

Module Navigation.
Import Viewer.

(** [e.key], as far as the listener tells keys apart. *)
Inductive Key : Type :=
| ArrowLeft
| ArrowRight
| OtherKey.

(** [handleNextPage] and [handlePrevPage]: the page they call
    [handlePageChange] with, if they call it. *)
Definition handleNextPage (v : State) : option Z :=
  if negb (renderingPage v) && (currentPage v <? numPages v)
  then Some (currentPage v + 1)
  else None.

Definition handlePrevPage (v : State) : option Z :=
  if negb (renderingPage v) && (1 <? currentPage v)
  then Some (currentPage v - 1)
  else None.

(** [handleKeyDown], which listens while [rendered] holds and [numPages]
    is not 0. *)
Definition handleKeyDown (key : Key) (v : State) : option Z :=
  if negb (rendered v) || (numPages v =? 0) then None
  else if renderingPage v then None
  else
    match key with
    | ArrowLeft =>
        if 1 <? currentPage v then handlePrevPage v else None
    | ArrowRight =>
        if currentPage v <? numPages v then handleNextPage v else None
    | OtherKey => None
    end.

(** A click on the Previous or on the Next button.  The buttons are there
    while [rendered && numPages > 1], each disabled at its end of the
    document and while a page is rendered. *)
Definition prevClicked (v : State) : option Z :=
  if rendered v && (1 <? numPages v)
     && negb ((currentPage v =? 1) || renderingPage v)
  then handlePrevPage v
  else None.

Definition nextClicked (v : State) : option Z :=
  if rendered v && (1 <? numPages v)
     && negb ((currentPage v =? numPages v) || renderingPage v)
  then handleNextPage v
  else None.

(** What the user and the window do to the component. *)
Inductive Input : Type :=
| PrevClicked
| NextClicked
| KeyDown (key : Key)
| ResizeFires.            (* the debounced resize callback is due *)

Section Inputs.

Variable env : Env.
Variable referenceErrorMessage : string.

(** A call of [handlePageChange], if [target] names a page. *)
Definition navigate (target : option Z) (s : System) : System :=
  match target with
  | None => s
  | Some newPage =>
      match handlePageChange env referenceErrorMessage newPage (state s) with
      | None => s
      | Some r =>
          {| state := fst r; started := started s ++ [newPage] |}
      end
  end.

Definition act (s : System) (i : Input) : System :=
  match i with
  | PrevClicked => navigate (prevClicked (state s)) s
  | NextClicked => navigate (nextClicked (state s)) s
  | KeyDown key => navigate (handleKeyDown key (state s)) s
  | ResizeFires =>
      let r := handleResize (state s) in
      {| state := fst r;
         started := started s
                    ++ match snd r with Some n => [n] | None => [] end |}
  end.

End Inputs.

End Navigation.

(** ** The viewer component: the effect on [file], and [loadPdf] *)

Module Loading.
Import Viewer Navigation.

(** What [loadPdf] reads of its file: [file.type]. *)
Record File : Type := { type : string }.

(** [s.includes(sub)] *)
Definition includes (s sub : string) : bool :=
  negb (Js.indexOf s sub 0 =? -1).

(** The component as [useState] and [useRef] start it. *)
Definition initial : State :=
  {| loading := false; error := None; rendered := false;
     currentPage := 1; numPages := 0; renderingPage := false;
     hasTextLayer := true; noTextForPage := false;
     pdfDocRef := None; pdfPageRef := None;
     renderTaskRef := None; renderTokenRef := 0;
     needsRerender := false; effects := [] |}.

(** The [await]s of [loadPdf] a task waits at.  Its last, [await
    renderPage(1)], waits for a promise that is settled already. *)
Inductive LoadPoint : Type :=
| AtRead                         (* [await new Promise(...)], the reader *)
| AtLoadDocument.                (* [await loadPdfDocument(arrayBuffer)] *)

Inductive LoadStatus : Type :=
| Loading (at_ : LoadPoint)
| Done.

(** What an [await] of [loadPdf] resumes with: the reader's [onload] or
    [onerror]; the document with its [numPages], or what
    [loadPdfDocument] rejected with. *)
Inductive LoadResume : Type :=
| ReadSettled (loaded : bool)
| DocumentSettled (r : Dictionary.Completion (Doc * Z)).

Definition cdnMessage : string :=
  "PDF.js library failed to load from CDN. Please check your internet connection and reload the page.".

Section Load.

Variable throws : Effect -> bool.
Variable env : Env.
Variable referenceErrorMessage : string.

(** The [catch] block of [loadPdf], and with it the [finally] block. *)
Definition caught (e : Dictionary.Thrown) (v : State) : State :=
  match e with
  | Dictionary.ErrorObj message =>
      if includes message "PDF.js library failed"
      then set_error (Some cdnMessage) v
      else set_error (Some message) v
  | Dictionary.NonError => set_error (Some "Failed to load PDF") v
  end.

Definition failed (e : Dictionary.Thrown) (v : State)
  : State * LoadStatus :=
  (set_loading false (caught e v), Done).

(** [loadPdf()] up to its first [await]. *)
Definition loadPdf (file : File) (v : State) : State * LoadStatus :=
  let v1 := set_rendered false (set_error None (set_loading true v)) in
  let v2 := snd (cleanupDoc throws v1) in
  if negb (includes (type file) "pdf") then
    failed (Dictionary.ErrorObj
              "Invalid file type. Please upload a PDF file.") v2
  else (v2, Loading AtRead).

(** [loadPdf()], suspended at [at_], resumed with [r]; [None] when [r] is
    not what that [await] waits for.  With the document it goes on to
    [await renderPage(1)] and from there, whether that returns or throws,
    to its end. *)
Definition resumeLoad (at_ : LoadPoint) (r : LoadResume) (v : State)
  : option (State * LoadStatus) :=
  match at_, r with
  | AtRead, ReadSettled true => Some (v, Loading AtLoadDocument)
  | AtRead, ReadSettled false =>
      Some (failed (Dictionary.ErrorObj "Failed to read file") v)
  | AtLoadDocument, DocumentSettled (Dictionary.Returns (pdfDoc, pages)) =>
      let v1 := set_currentPage 1
                  (set_numPages pages
                     (set_pdfDocRef (Some pdfDoc) v)) in
      match renderPage env referenceErrorMessage 1 v1 with
      | Dictionary.Returns _ => Some (set_loading false v1, Done)
      | Dictionary.Throws e => Some (failed e v1)
      end
  | AtLoadDocument, DocumentSettled (Dictionary.Throws e) =>
      Some (failed e v)
  | _, _ => None
  end.

(** The pages [renderPage] is called with as that [await] resumes. *)
Definition rendersOf (at_ : LoadPoint) (r : LoadResume) : list Z :=
  match at_, r with
  | AtLoadDocument, DocumentSettled (Dictionary.Returns _) => [1]
  | _, _ => []
  end.

(** The effect's branch for no file. *)
Definition noFile (v : State) : State :=
  set_noTextForPage false
    (set_hasTextLayer false
       (set_numPages 0
          (set_currentPage 1
             (set_error None
                (set_rendered false (snd (cleanupDoc throws v))))))).

(** The effect on [file], up to the first [await] of the [loadPdf] it
    starts. *)
Definition fileEffect (file : option File) (v : State)
  : State * LoadStatus :=
  match file with
  | None => (noFile v, Done)
  | Some f => loadPdf f v
  end.

(** The cleanup the effect returned when it last ran, which it did only
    with a file. *)
Definition effectCleanup (previous : option File) (v : State) : State :=
  match previous with
  | Some _ => snd (cleanupDoc throws v)
  | None => v
  end.

(** The mounted component: its state, the [file] it was last given and
    its [loadPdf] calls in flight. *)
Record Mounted : Type := {
  sys : System;
  file : option File;
  loads : list LoadPoint
}.

Inductive Happening : Type :=
| Does (i : Input)
| FileChanges (f : option File)           (* the [file] prop changes *)
| LoadSettles (i : nat) (r : LoadResume). (* an [await] of the i-th load *)

Definition onState (v : State) (m : Mounted) : System :=
  withState v (sys m).

Definition mount (f : option File) : Mounted :=
  let r := fileEffect f initial in
  {| sys := {| state := fst r; started := [] |};
     file := f;
     loads := match snd r with Loading p => [p] | Done => [] end |}.

Definition happen (m : Mounted) (h : Happening) : Mounted :=
  match h with
  | Does i =>
      {| sys := act env referenceErrorMessage (sys m) i;
         file := file m; loads := loads m |}
  | FileChanges f =>
      let r := fileEffect f (effectCleanup (file m) (state (sys m))) in
      {| sys := onState (fst r) m;
         file := f;
         loads := loads m ++
                  match snd r with Loading p => [p] | Done => [] end |}
  | LoadSettles i r =>
      match loads m !! i with
      | None => m
      | Some p =>
          match resumeLoad p r (state (sys m)) with
          | None => m
          | Some (v, status) =>
              {| sys := {| state := v;
                           started := started (sys m) ++ rendersOf p r |};
                 file := file m;
                 loads := match status with
                          | Loading p' => <[i := p']> (loads m)
                          | Done => delete i (loads m)
                          end |}
          end
      end
  end.

Definition live (m : Mounted) (happenings : list Happening) : Mounted :=
  fold_left happen happenings m.

End Load.

(** A PDF file, and the component after it was mounted with that file, the
    file was read and a three-page document arrived for it. *)
Definition pdf : File := {| type := "application/pdf" |}.

Definition opened (referenceErrorMessage : string) : Mounted :=
  live (fun _ => false) browser referenceErrorMessage
    (mount (fun _ => false) (Some pdf))
    [LoadSettles 0 (ReadSettled true);
     LoadSettles 0 (DocumentSettled (Dictionary.Returns (7%nat, 3)))].

End Loading.

(** ** Binary64 numbers as integers

    Every finite binary64 number is an integer number of units of 2^-1074,
    and what the machine computes for a sum or a difference is the exact
    integer sum rounded to 53 significant bits, ties to even.  These are
    the integers and the rounding the lemmas on the rectangles' edges are
    stated with. *)

Module Binary64.
Local Open Scope Z_scope.
















End Binary64.
(** ** Facts about strings *)

Lemma all_filter (p : ascii -> bool) (s : string) :
  JsString.all p (JsString.filter p s) = true.
Proof.
  induction s as [|c s IH]; simpl; [reflexivity|].
  destruct (p c) eqn:E; simpl; [rewrite E|]; exact IH.
Qed.

Lemma all_spec (p : ascii -> bool) (s : string) :
  JsString.all p s = true <->
  forall i c, String.get i s = Some c -> p c = true.
Proof.
  induction s as [|c s IH]; simpl.
  - split; [intros _ i c H; destruct i; discriminate | reflexivity].
  - rewrite andb_true_iff, IH. split.
    + intros [Hc Hs] [|i] d H; simpl in H; [congruence | eauto].
    + intros H. split; [apply (H 0%nat); reflexivity|].
      intros i d Hi. apply (H (S i)). exact Hi.
Qed.

Lemma len_lt_2_nonempty (s : string) :
  (JsString.len s <? 2) = false -> JsString.isEmpty s = false.
Proof.
  destruct s; [discriminate | reflexivity].
Qed.

(** C3: [normalizeWord] lowercases, trims and strips every character outside
    a-z; it returns null exactly when the stripped string has fewer than two
    characters or holds a non-letter (which the stripping rules out), and the
    stripped string otherwise.  "Hello!" gives "hello", "a" and "123" give
    null, " Don't " gives "dont". *)
Theorem normalizeWord_spec :
  (forall word,
      normalized word =
        JsString.filter JsString.isLower
          (JsString.trim (JsString.toLowerCase word))) /\
  (forall word,
      normalizeWord word = None <->
      (JsString.len (normalized word) < 2 \/
       exists i c, String.get i (normalized word) = Some c /\
                   JsString.isLower c = false)) /\
  (forall word,
      normalizeWord word <> None ->
      normalizeWord word = Some (normalized word)) /\
  normalizeWord "Hello!" = Some "hello" /\
  normalizeWord "a" = None /\
  normalizeWord "123" = None /\
  normalizeWord " Don't " = Some "dont".
Proof.
  split; [reflexivity|]. split; [|split].
  - intros word. unfold normalizeWord. cbv zeta.
    destruct (JsString.len (normalized word) <? 2) eqn:El; simpl.
    + split; [intros _; left; apply Z.ltb_lt, El | reflexivity].
    + unfold lettersOnly.
      rewrite (len_lt_2_nonempty _ El). unfold normalized at 1.
      rewrite all_filter. simpl. split; [discriminate|].
      intros [Hl | (i & c & Hg & Hc)].
      * apply Z.ltb_ge in El. lia.
      * pose proof (proj1 (all_spec JsString.isLower (normalized word))
                      (all_filter _ _) i c Hg). congruence.
  - intros word. unfold normalizeWord. cbv zeta.
    destruct (_ || _); [intros H; now elim H | reflexivity].
  - repeat split; vm_compute; reflexivity.
Qed.


(** ** The cache policy of [fetchDefinition] *)

Module DictionaryFacts.
Import Dictionary.

Section Lookup.

Variable typeErrorMessage : string.
Variable net : nat -> string -> FetchOutcome.

Local Abbreviation lookup := (fetchDefinition typeErrorMessage net).

(** A lookup of a key the cache holds is answered from the cache. *)
Lemma lookup_hit rawWord key d (s : Session) :
  normalizeWord rawWord = Some key ->
  cache s !! key = Some d ->
  lookup rawWord s = (Returns d, s).
Proof.
  intros Hn Hc. unfold fetchDefinition. rewrite Hn, Hc. reflexivity.
Qed.

(** A lookup of a key the cache lacks sends one request and returns. *)
Lemma lookup_miss rawWord key (s : Session) :
  normalizeWord rawWord = Some key ->
  cache s !! key = None ->
  exists d c',
    lookup rawWord s =
      (Returns d, {| cache := c'; calls := calls s ++ [lookupUrl key] |}) /\
    match tryFetch typeErrorMessage key
            (net (length (calls s)) (lookupUrl key)) (cache s) with
    | Returns (d0, c0) => d = d0 /\ c' = c0
    | Throws e => d = fetchFailed key e /\ c' = cache s
    end.
Proof.
  intros Hn Hc. unfold fetchDefinition. rewrite Hn, Hc. cbv zeta.
  destruct (tryFetch _ _ _ _) as [[d c0]|e]; eauto.
Qed.

Lemma tryFetch_http_error key status body c :
  ok status = false -> status <> 404 ->
  tryFetch typeErrorMessage key (FetchResolves status body) c =
    Throws (ErrorObj ("HTTP error " +:+ decimal status)).
Proof.
  intros Hok Hs. unfold tryFetch. rewrite Hok. simpl.
  destruct (Z.eqb_spec status 404); [contradiction | reflexivity].
Qed.

End Lookup.

(** C2: a key the cache holds is answered from the cache with no request;
    a 404 is turned into a "not_found" entry with a fallback message and
    stored, so the next lookup of the same key sends no second request; any
    other non-success status, and a transport failure, gives an entry with
    an error marker that is not stored, so the next lookup of the same key
    sends a second request. *)
Theorem fetchDefinition_cache_policy
    (typeErrorMessage : string) (net : nat -> string -> FetchOutcome)
    (w1 w2 key : string) (s : Session)
    (Hw1 : normalizeWord w1 = Some key)
    (Hw2 : normalizeWord w2 = Some key) :
  let lookup := fetchDefinition typeErrorMessage net in
  let url := lookupUrl key in
  let outcome := net (length (calls s)) url in
  let s1 := snd (lookup w1 s) in
  let s2 := snd (lookup w2 s1) in
  (forall d, cache s !! key = Some d -> lookup w1 s = (Returns d, s)) /\
  (cache s !! key = None ->
   (forall body,
       outcome = FetchResolves 404 body ->
       let entry :=
         {| word := key; phonetic := None;
            definition := JStr ("Meaning not available for '" +:+ key +:+ "'");
            example := None; error := Some "not_found" |} in
       lookup w1 s =
         (Returns entry,
          {| cache := <[key := entry]> (cache s);
             calls := calls s ++ [url] |}) /\
       lookup w2 s1 = (Returns entry, s1) /\
       calls s2 = calls s ++ [url]) /\
   (forall e status body,
       outcome = FetchRejects e \/
       (outcome = FetchResolves status body /\
        ok status = false /\ status <> 404) ->
       exists message,
         lookup w1 s =
           (Returns
              {| word := key; phonetic := None;
                 definition :=
                   JStr ("Unable to fetch meaning for '" +:+ key +:+ "'");
                 example := None; error := Some message |},
            {| cache := cache s; calls := calls s ++ [url] |}) /\
         calls s2 = calls s ++ [url; url])).
Proof.
  intros lookup url outcome s1 s2. split.
  - intros d Hc. exact (lookup_hit _ _ _ _ _ _ Hw1 Hc).
  - intros Hc. split.
    + intros body Ho entry.
      assert (E1 : lookup w1 s =
                (Returns entry,
                 {| cache := <[key := entry]> (cache s);
                    calls := calls s ++ [url] |})).
      { unfold lookup, fetchDefinition. rewrite Hw1, Hc. cbv zeta.
        fold url. fold outcome. rewrite Ho. reflexivity. }
      assert (E2 : lookup w2 s1 = (Returns entry, s1)).
      { apply (lookup_hit _ _ _ key); [exact Hw2|].
        unfold s1. rewrite E1. simpl. apply lookup_insert_eq. }
      repeat split; [exact E1 | exact E2 |].
      unfold s2. rewrite E2. simpl. unfold s1. rewrite E1. reflexivity.
    + intros e status body Hcase.
      assert (Ht : exists e', tryFetch typeErrorMessage key outcome (cache s)
                              = Throws e').
      { destruct Hcase as [-> | (-> & Hok & Hs)].
        - eexists; reflexivity.
        - eexists. apply tryFetch_http_error; assumption. }
      destruct Ht as [e' Ht].
      exists (match e' with ErrorObj m => m | NonError => "network_error" end).
      assert (E1 : lookup w1 s =
                (Returns (fetchFailed key e'),
                 {| cache := cache s; calls := calls s ++ [url] |})).
      { unfold lookup, fetchDefinition. rewrite Hw1, Hc. cbv zeta.
        fold url. fold outcome. rewrite Ht. reflexivity. }
      split; [exact E1|].
      assert (Hc1 : cache s1 !! key = None)
        by (unfold s1; rewrite E1; exact Hc).
      destruct (lookup_miss typeErrorMessage net w2 key s1 Hw2 Hc1)
        as (d & c' & E2 & _).
      unfold s2, lookup. rewrite E2. simpl. unfold s1. rewrite E1. simpl.
      rewrite <- app_assoc. reflexivity.
Qed.

(** Two spellings of one key, nothing cached: the service answers 404 to
    the first request, and the second lookup sends none. *)
Lemma fetchDefinition_cache_policy_witness :
  normalizeWord "Hello!" = Some "hello" /\
  normalizeWord " hello " = Some "hello" /\
  let net := fun (_ : nat) (_ : string) =>
               FetchResolves 404 (JsonRejects NonError) in
  let s0 := {| cache := ∅; calls := [] |} in
  let s1 := snd (fetchDefinition "" net "Hello!" s0) in
  calls (snd (fetchDefinition "" net " hello " s1)) =
    ["https://api.dictionaryapi.dev/api/v2/entries/en/hello"].
Proof.
  split; [reflexivity|]. split; [reflexivity|]. intros net s0 s1.
  refine (proj2 (proj2 (proj1 (proj2
    (fetchDefinition_cache_policy "" net "Hello!" " hello " "hello" s0
       eq_refl eq_refl) eq_refl) (JsonRejects NonError) eq_refl))).
Defined.

(** C10: with a word that normalizes, [fetchDefinition] never rejects: a
    non-404 error status, a transport failure, a body that does not parse
    and a failure while reading the parsed body are each caught and
    returned as an entry whose word is the key and whose error is set; it
    throws exactly when [normalizeWord] gives null. *)
Theorem fetchDefinition_never_rejects
    (typeErrorMessage : string) (net : nat -> string -> FetchOutcome)
    (rawWord : string) (s : Session) :
  let lookup := fetchDefinition typeErrorMessage net in
  (normalizeWord rawWord = None ->
   lookup rawWord s = (Throws (ErrorObj "Invalid word format"), s)) /\
  (forall key,
      normalizeWord rawWord = Some key ->
      (exists d, fst (lookup rawWord s) = Returns d) /\
      (cache s !! key = None ->
       forall e status body data,
         let outcome := net (length (calls s)) (lookupUrl key) in
         outcome = FetchRejects e \/
         (outcome = FetchResolves status body /\
          ok status = false /\ status <> 404) \/
         (outcome = FetchResolves status (JsonRejects e) /\
          ok status = true) \/
         (outcome = FetchResolves status (JsonResolves data) /\
          ok status = true /\
          buildResult typeErrorMessage key data = Throws e) ->
         exists d message,
           fst (lookup rawWord s) = Returns d /\
           word d = key /\ error d = Some message /\
           cache (snd (lookup rawWord s)) = cache s)) /\
  ((exists e, fst (lookup rawWord s) = Throws e) <->
   normalizeWord rawWord = None).
Proof.
  intros lookup. split; [|split].
  - intros Hn. unfold lookup, fetchDefinition. rewrite Hn. reflexivity.
  - intros key Hn. split.
    + destruct (cache s !! key) as [d|] eqn:Hc.
      * exists d. unfold lookup.
        rewrite (lookup_hit _ _ _ _ _ _ Hn Hc). reflexivity.
      * destruct (lookup_miss typeErrorMessage net _ _ _ Hn Hc)
          as (d & c' & E & _).
        exists d. unfold lookup. rewrite E. reflexivity.
    + intros Hc e status body data outcome Hcase.
      assert (Ht : exists e', tryFetch typeErrorMessage key outcome (cache s)
                              = Throws e').
      { destruct Hcase as [-> | [(-> & Hok & Hs) | [(-> & Hok)
                               | (-> & Hok & Hb)]]].
        - eexists; reflexivity.
        - eexists. apply tryFetch_http_error; assumption.
        - eexists. unfold tryFetch. rewrite Hok. reflexivity.
        - eexists. unfold tryFetch. rewrite Hok, Hb. reflexivity. }
      destruct Ht as [e' Ht].
      exists (fetchFailed key e').
      exists (match e' with ErrorObj m => m | NonError => "network_error" end).
      unfold lookup, fetchDefinition. rewrite Hn, Hc. cbv zeta.
      fold outcome. rewrite Ht. repeat split.
  - split.
    + intros [e He]. destruct (normalizeWord rawWord) as [key|] eqn:Hn;
        [|reflexivity].
      exfalso. revert He. unfold lookup, fetchDefinition. rewrite Hn.
      destruct (cache s !! key); [discriminate|]. cbv zeta.
      destruct (tryFetch _ _ _ _) as [[d c0]|e0]; discriminate.
    + intros Hn. eexists. unfold lookup, fetchDefinition. rewrite Hn.
      reflexivity.
Qed.

(** Nothing cached and the service answers 500: the lookup of "Hello!"
    returns an entry for "hello" with the error "HTTP error 500", and the
    cache stays empty. *)
Lemma fetchDefinition_never_rejects_witness :
  let net := fun (_ : nat) (_ : string) =>
               FetchResolves 500 (JsonRejects NonError) in
  let s0 := {| cache := ∅; calls := [] |} in
  exists d message,
    fst (fetchDefinition "" net "Hello!" s0) = Returns d /\
    word d = "hello" /\ error d = Some message /\
    cache (snd (fetchDefinition "" net "Hello!" s0)) = ∅.
Proof.
  intros net s0.
  destruct (fetchDefinition_never_rejects "" net "Hello!" s0) as (_ & H & _).
  destruct (H "hello" eq_refl) as [_ Hfail].
  apply (Hfail eq_refl NonError 500 (JsonRejects NonError) JNull).
  right. left. repeat split. discriminate.
Defined.

End DictionaryFacts.

(** ** The order on binary64 numbers *)

Module FloatOrder.

Lemma SFcompare_Lt_trans (a b c : SpecFloat.spec_float) :
  SpecFloat.SFcompare a b = Some Lt ->
  SpecFloat.SFcompare b c = Some Lt ->
  SpecFloat.SFcompare a c = Some Lt.
Proof.
  destruct a as [sa|sa| |sa ma ea], b as [sb|sb| |sb mb eb],
           c as [sc|sc| |sc mc ec]; simpl;
    try discriminate; try reflexivity;
    repeat match goal with s : bool |- _ => destruct s end;
    simpl; try discriminate; try reflexivity.
  - (* negative finite numbers *)
    destruct (Z.compare_spec ea eb), (Z.compare_spec eb ec),
             (Z.compare_spec ea ec);
      try discriminate; try reflexivity; try lia; subst.
    rewrite !Pos.compare_cont_spec. simpl.
    destruct (Pos.compare_spec ma mb), (Pos.compare_spec mb mc),
             (Pos.compare_spec ma mc);
      simpl; try discriminate; try reflexivity; lia.
  - (* positive finite numbers *)
    destruct (Z.compare_spec ea eb), (Z.compare_spec eb ec),
             (Z.compare_spec ea ec);
      try discriminate; try reflexivity; try lia; subst.
    rewrite !Pos.compare_cont_spec. simpl.
    destruct (Pos.compare_spec ma mb), (Pos.compare_spec mb mc),
             (Pos.compare_spec ma mc);
      simpl; try discriminate; try reflexivity; lia.
Qed.

(** [<] on numbers is transitive, NaN included (it is below nothing and
    nothing is below it). *)
Lemma ltb_trans (a b c : float) :
  (a <? b)%float = true -> (b <? c)%float = true -> (a <? c)%float = true.
Proof.
  rewrite !FloatAxioms.ltb_spec. unfold SpecFloat.SFltb.
  destruct (SpecFloat.SFcompare (Prim2SF a) (Prim2SF b)) as [[]|] eqn:E1;
    try discriminate.
  destruct (SpecFloat.SFcompare (Prim2SF b) (Prim2SF c)) as [[]|] eqn:E2;
    try discriminate.
  rewrite (SFcompare_Lt_trans _ _ _ E1 E2). reflexivity.
Qed.

Lemma SFcompare_refl_not_Lt (a : SpecFloat.spec_float) :
  SpecFloat.SFcompare a a <> Some Lt.
Proof.
  destruct a as [s|s| |s m e]; simpl; try destruct s; try discriminate;
    rewrite Z.compare_refl, Pos.compare_cont_refl; discriminate.
Qed.

Lemma ltb_irrefl (a : float) : (a <? a)%float = false.
Proof.
  rewrite FloatAxioms.ltb_spec. unfold SpecFloat.SFltb.
  pose proof (SFcompare_refl_not_Lt (Prim2SF a)) as H.
  destruct (SpecFloat.SFcompare (Prim2SF a) (Prim2SF a)) as [[]|];
    try reflexivity. now elim H.
Qed.

Lemma ltb_asym (a b : float) :
  (a <? b)%float = true -> (b <? a)%float = false.
Proof.
  intros H. destruct (b <? a)%float eqn:E; [|reflexivity].
  rewrite <- (ltb_irrefl a). symmetry. exact (ltb_trans _ _ _ H E).
Qed.




End FloatOrder.

(** ** Sums of binary64 numbers round the exact sums

    A sum or difference computed by the machine is the exact integer sum
    of units rounded to 53 significant bits, and rounding preserves order:
    what is needed to compare the edges of a rectangle with its centre. *)

Module Rounding.
Import Binary64.
Local Open Scope Z_scope.

(** *** Digits *)







(** *** Shifting right *)





(** *** Rounding to nearest, ties to even, on integers *)








(** *** Rounding an integer number of units to 53 significant bits *)






(** *** Floats as integer numbers of units of 2^-1074 *)










(** *** What [binary_round] computes, in units *)









(** *** Addition and subtraction round the exact sum *)








(** *** The order in units *)



(** *** Inequalities between computed sums *)










(** *** Signs of products and quotients, and halving *)









(** *** The same, on the numbers of the program *)

Local Open Scope float_scope.















End Rounding.

(** ** [findWordAtPoint] *)

Module HitTestFacts.
Import Js Extractor Samples FloatOrder.

Section Point.

Variables px py threshold : float.

Lemma firstInside_first before w after :
  (forall w', In w' before -> inside w' px py threshold = false) ->
  inside w px py threshold = true ->
  firstInside (before ++ w :: after) px py threshold = Some w.
Proof.
  induction before as [|b before IH]; simpl; intros Hb Hw.
  - rewrite Hw. reflexivity.
  - rewrite (Hb b) by (left; reflexivity).
    apply IH; [|exact Hw]. intros w' Hin. apply Hb. right. exact Hin.
Qed.

Lemma firstInside_none words :
  (forall w, In w words -> inside w px py threshold = false) ->
  firstInside words px py threshold = None.
Proof.
  induction words as [|w words IH]; simpl; intros H; [reflexivity|].
  rewrite (H w) by (left; reflexivity).
  apply IH. intros w' Hin. apply H. right. exact Hin.
Qed.

(** The second loop either keeps [nearest], no distance being below
    [minDistance], or ends on a rectangle below [minDistance] that no
    rectangle of the list is closer than. *)
Lemma nearestFrom_spec words : forall nearest minDistance,
  (nearestFrom words px py nearest minDistance = nearest /\
   forall w, In w words ->
             (distanceTo w px py <? minDistance)%float = false) \/
  (exists w,
      nearestFrom words px py nearest minDistance = Some w /\
      In w words /\
      (distanceTo w px py <? minDistance)%float = true /\
      forall w', In w' words ->
                 (distanceTo w' px py <? distanceTo w px py)%float = false).
Proof.
  induction words as [|w words IH]; intros nearest m; simpl.
  - left. split; [reflexivity | intros ? []].
  - destruct (distanceTo w px py <? m)%float eqn:Ew.
    + right.
      destruct (IH (Some w) (distanceTo w px py))
        as [[-> Hall] | (w2 & -> & Hin & Hlt & Hmin)].
      * exists w. repeat split; [now left | exact Ew |].
        intros w' [<- | Hin]; [apply ltb_irrefl | apply Hall, Hin].
      * exists w2. repeat split; [now right | |].
        -- exact (ltb_trans _ _ _ Hlt Ew).
        -- intros w' [<- | Hin']; [apply ltb_asym, Hlt | apply Hmin, Hin'].
    + destruct (IH nearest m)
        as [[-> Hall] | (w2 & -> & Hin & Hlt & Hmin)].
      * left. split; [reflexivity|].
        intros w' [<- | Hin]; [exact Ew | apply Hall, Hin].
      * right. exists w2. repeat split; [now right | exact Hlt |].
        intros w' [<- | Hin']; [|apply Hmin, Hin'].
        destruct (distanceTo w px py <? distanceTo w2 px py)%float eqn:E;
          [|reflexivity].
        rewrite <- Ew. symmetry. exact (ltb_trans _ _ _ E Hlt).
Qed.

End Point.

(** C4: [findWordAtPoint] returns the first rectangle, in list order, whose
    bounds widened by the threshold on all four sides hold the point; when
    none does, it returns a rectangle whose centre is at the least distance
    from the point if that distance is below twice the threshold, and null
    when no centre is that close. *)
Theorem findWordAtPoint_spec
    (words : list WordRect) (px py threshold : float) :
  (forall w,
      inside w px py threshold =
        ((x w - threshold <=? px) && (px <=? x w + width w + threshold)
         && (y w - threshold <=? py)
         && (py <=? y w + height w + threshold))%float /\
      distanceTo w px py =
        PrimFloat.sqrt ((px - centerX w) * (px - centerX w)
                        + (py - centerY w) * (py - centerY w))%float) /\
  (forall before w after,
      words = before ++ w :: after ->
      (forall w', In w' before -> inside w' px py threshold = false) ->
      inside w px py threshold = true ->
      findWordAtPoint words px py threshold = Some w) /\
  ((forall w, In w words -> inside w px py threshold = false) ->
   (forall w,
       findWordAtPoint words px py threshold = Some w ->
       In w words /\
       (distanceTo w px py <? threshold * 2)%float = true /\
       forall w', In w' words ->
                  (distanceTo w' px py <? distanceTo w px py)%float = false) /\
   (findWordAtPoint words px py threshold = None <->
    forall w, In w words ->
              (distanceTo w px py <? threshold * 2)%float = false)).
Proof.
  split; [intros w; split; reflexivity|]. split.
  - intros before w after -> Hb Hw. unfold findWordAtPoint.
    rewrite (firstInside_first _ _ _ _ _ _ Hb Hw). reflexivity.
  - intros Hout. unfold findWordAtPoint.
    rewrite (firstInside_none _ _ _ _ Hout).
    destruct (nearestFrom_spec px py words None (threshold * 2)%float)
      as [[E Hall] | (w2 & E & Hin & Hlt & Hmin)]; rewrite E.
    + split; [discriminate|]. split; [intros _; exact Hall | reflexivity].
    + split.
      * intros w [= <-]. repeat split; assumption.
      * split; [discriminate|]. intros Hall.
        rewrite (Hall w2 Hin) in Hlt. discriminate.
Qed.

(** Two overlapping squares, at 0 and at 5: a point in both gives the first;
    (100, 100), far from both, gives null. *)
Lemma findWordAtPoint_spec_witness :
  let words := [square "first" 0; square "second" 5] in
  findWordAtPoint words 7 5 12 = Some (square "first" 0) /\
  findWordAtPoint words 100 100 12 = None.
Proof.
  intros words.
  destruct (findWordAtPoint_spec words 7 5 12) as (_ & Hfirst & _).
  destruct (findWordAtPoint_spec words 100 100 12) as (_ & _ & Hfar).
  split.
  - apply (Hfirst [] (square "first" 0) [square "second" 5]);
      [reflexivity | intros w' [] | vm_compute; reflexivity].
  - assert (Hout : forall w, In w words -> inside w 100 100 12 = false).
    { intros w [<- | [<- | []]]; vm_compute; reflexivity. }
    apply (proj2 (Hfar Hout)).
    intros w [<- | [<- | []]]; vm_compute; reflexivity.
Defined.

End HitTestFacts.

(** ** [extractWordsFromTextContent] *)

Module ExtractFacts.
Import Js Extractor Pieces Samples.

Lemma Chain_weaken whole lo lo' toks :
  (lo' <= lo)%nat -> Chain whole lo toks -> Chain whole lo' toks.
Proof.
  destruct toks as [|[p w] rest]; simpl; [trivial|].
  intros Hle (H1 & H2 & H3 & H4). repeat split; try assumption. lia.
Qed.

Lemma Chain_filter whole (keep : nat * string -> bool) toks :
  forall lo, Chain whole lo toks -> Chain whole lo (List.filter keep toks).
Proof.
  induction toks as [|[p w] rest IH]; simpl; intros lo H; [trivial|].
  destruct H as (H1 & H2 & H3 & H4).
  destruct (keep (p, w)); simpl.
  - repeat split; try assumption. apply IH, H4.
  - apply IH. apply (Chain_weaken _ (p + String.length w + 1)); [lia|].
    exact H4.
Qed.

Lemma prefix_empty (s : string) : String.prefix EmptyString s = true.
Proof. destruct s; reflexivity. Qed.

Lemma drop_step (n : nat) : forall whole c s',
  drop n whole = String c s' -> drop (S n) whole = s'.
Proof.
  induction n as [|n IH]; intros whole c s' H.
  - destruct whole; simpl in *; [discriminate|]. congruence.
  - destruct whole as [|d whole]; simpl in H; [discriminate|].
    simpl. destruct whole as [|d' whole']; [destruct n; discriminate|].
    exact (IH _ _ _ H).
Qed.

Lemma drop_length (n : nat) : forall whole,
  (n <= String.length whole)%nat ->
  (n + String.length (drop n whole) = String.length whole)%nat.
Proof.
  induction n as [|n IH]; intros whole H; [reflexivity|].
  destruct whole as [|c whole]; simpl in *; [lia|].
  rewrite IH by lia. reflexivity.
Qed.

Lemma map_snd_splitPos (s : string) : forall b pos,
  List.map snd (splitPos b s pos) = splitFrom b s.
Proof.
  induction s as [|c s IH]; intros b pos; simpl; [reflexivity|].
  destruct (JsString.isWhiteSpace c).
  - destruct b; simpl; rewrite IH; reflexivity.
  - rewrite <- (IH false (S pos)).
    destruct (splitPos false s (S pos)) as [|[q piece] rest]; reflexivity.
Qed.

Lemma splitPos_chain (whole s : string) : forall pos,
  drop pos whole = s -> (pos <= String.length whole)%nat ->
  (exists piece rest,
      splitPos false s pos = (pos, piece) :: rest /\
      String.prefix piece s = true /\
      Chain whole (pos + String.length piece + 1) rest) /\
  Chain whole pos (splitPos true s pos).
Proof.
  induction s as [|c s IH]; intros pos Hd Hl.
  - simpl. split.
    + exists EmptyString, []. repeat split.
    + repeat split; try lia. rewrite Hd. reflexivity.
  - pose proof (drop_length pos whole Hl) as Hlen. rewrite Hd in Hlen.
    simpl in Hlen.
    destruct (IH (S pos) (drop_step _ _ _ _ Hd) ltac:(lia))
      as [(piece & rest & E & Hp & Hc) Ht].
    simpl. destruct (JsString.isWhiteSpace c).
    + split.
      * exists EmptyString, (splitPos true s (S pos)). repeat split.
        simpl. replace (pos + 0 + 1)%nat with (S pos) by lia. exact Ht.
      * apply (Chain_weaken _ (S pos)); [lia | exact Ht].
    + rewrite E.
      assert (Hpre : String.prefix (String c piece) (String c s) = true).
      { simpl. destruct (ascii_dec c c); [exact Hp | contradiction]. }
      assert (Hch : Chain whole (pos + String.length (String c piece) + 1)
                      rest).
      { simpl.
        replace (pos + S (String.length piece) + 1)%nat
          with (S pos + String.length piece + 1)%nat by lia.
        exact Hc. }
      split.
      * exists (String c piece), rest. repeat split; assumption.
      * simpl. rewrite Hd. repeat split; try assumption; lia.
Qed.

(** *** [indexOf] finds what occurs at or after the start *)

Lemma search_unfold w s at_ :
  search w s at_ =
    if String.prefix w s then at_
    else match s with
         | EmptyString => -1
         | String _ s' => search w s' (at_ + 1)
         end.
Proof. destruct s; reflexivity. Qed.

Lemma search_found (w whole : string) (k : nat) : forall c,
  String.prefix w (drop (c + k) whole) = true ->
  exists idx,
    search w (drop c whole) (Z.of_nat c) = Z.of_nat idx /\
    (c <= idx <= c + k)%nat.
Proof.
  induction k as [|k IH]; intros c Hp; rewrite search_unfold.
  - replace (c + 0)%nat with c in Hp by lia. rewrite Hp.
    exists c. split; [reflexivity | lia].
  - destruct (String.prefix w (drop c whole)) eqn:E.
    + exists c. split; [reflexivity | lia].
    + destruct (drop c whole) as [|ch s'] eqn:Ed.
      * exfalso.
        assert (Hdk : drop (c + S k) whole = EmptyString).
        { clear -Ed. revert whole Ed.
          induction c as [|c IHc]; intros whole Ed.
          - simpl in Ed. subst. reflexivity.
          - destruct whole as [|d whole]; [reflexivity|].
            simpl in Ed. simpl. apply IHc. exact Ed. }
        rewrite Hdk in Hp. destruct w; [|discriminate].
        discriminate.
      * replace (c + S k)%nat with (S c + k)%nat in Hp by lia.
        destruct (IH (S c) Hp) as (idx & Hs & Hr).
        rewrite (drop_step _ _ _ _ Ed) in Hs.
        exists idx. split; [|lia].
        rewrite <- Hs. f_equal. lia.
Qed.

Lemma indexOf_found (whole w : string) (c p : nat) :
  (c <= p <= String.length whole)%nat ->
  String.prefix w (drop p whole) = true ->
  exists idx,
    indexOf whole w (Z.of_nat c) = Z.of_nat idx /\ (c <= idx <= p)%nat.
Proof.
  intros Hr Hp. unfold indexOf, JsString.len.
  replace (Z.min (Z.max (Z.of_nat c) 0) (Z.of_nat (String.length whole)))
    with (Z.of_nat c) by lia.
  rewrite Nat2Z.id.
  replace p with (c + (p - c))%nat in Hp by lia.
  destruct (search_found w whole (p - c) c Hp) as (idx & Hs & Hi).
  exists idx. split; [exact Hs | lia].
Qed.

(** *** The inner loop *)

Lemma len_filter_zero (p : ascii -> bool) (s : string) :
  (JsString.len (JsString.filter p s) =? 0) = negb (JsString.any p s).
Proof.
  induction s as [|c s IH]; simpl; [reflexivity|].
  destruct (p c); simpl; [|exact IH].
  unfold JsString.len. simpl. reflexivity.
Qed.

Section Run.

Variable viewport : Viewport.
Variable whole : string.
Variable t : Transform.
Variable charWidth : float.

Local Abbreviation step := (wordStep viewport whole t charWidth).

(** A token without a kept character pushes nothing and moves the
    cursor by its length and one. *)
Lemma wordStep_skipped cur token :
  JsString.any keptChar token = false ->
  step cur token =
    {| pushed := pushed cur;
       charOffset := charOffset cur + (JsString.len token + 1) |}.
Proof.
  intros H. unfold wordStep, cleanWordOf.
  rewrite len_filter_zero, H. reflexivity.
Qed.

(** A token with a kept character that occurs at or after the cursor is
    found there and pushed. *)
Lemma wordStep_kept cur token (p : nat) :
  JsString.any keptChar token = true ->
  0 <= charOffset cur <= Z.of_nat p ->
  (p <= String.length whole)%nat ->
  String.prefix token (drop p whole) = true ->
  let idx := indexOf whole token (charOffset cur) in
  charOffset cur <= idx <= Z.of_nat p /\
  step cur token =
    {| pushed := pushed cur ++ [rectOf viewport t charWidth token idx];
       charOffset := idx + JsString.len token + 1 |}.
Proof.
  intros Hk Hc Hp Hocc idx.
  destruct (indexOf_found whole token (Z.to_nat (charOffset cur)) p)
    as (i & Hi & Hr); [lia | exact Hocc |].
  rewrite Z2Nat.id in Hi by lia. fold idx in Hi.
  split; [lia|].
  unfold wordStep, cleanWordOf. rewrite len_filter_zero, Hk. simpl.
  fold idx. destruct (Z.eqb_spec idx (-1)); [lia | reflexivity].
Qed.

Lemma wordStep_cursor cur token (p : nat) :
  0 <= charOffset cur <= Z.of_nat p ->
  (p <= String.length whole)%nat ->
  String.prefix token (drop p whole) = true ->
  0 <= charOffset (step cur token)
    <= Z.of_nat (p + String.length token + 1).
Proof.
  intros Hc Hp Hocc.
  destruct (JsString.any keptChar token) eqn:Hk.
  - destruct (wordStep_kept cur token p Hk Hc Hp Hocc) as [Hi ->].
    simpl. unfold JsString.len. lia.
  - rewrite (wordStep_skipped cur token Hk). simpl.
    unfold JsString.len. lia.
Qed.

(** Whatever part of the token list is done, the next token occurs at or
    after the cursor. *)
Lemma loop_reaches : forall done toks lo cur token rest,
  Chain whole lo toks ->
  0 <= charOffset cur <= Z.of_nat lo ->
  List.map snd toks = done ++ token :: rest ->
  exists p,
    0 <= charOffset (fold_left step done cur) <= Z.of_nat p /\
    (p <= String.length whole)%nat /\
    String.prefix token (drop p whole) = true.
Proof.
  induction done as [|d done IH]; intros toks lo cur token rest Hch Hc E;
    destruct toks as [|[p w] toks]; try discriminate;
    simpl in E; injection E as -> E; destruct Hch as (H1 & H2 & H3 & H4).
  - exists p. simpl. repeat split; try assumption; lia.
  - simpl. apply (IH toks (p + String.length d + 1)%nat _ token rest);
      [exact H4 | | exact E].
    apply wordStep_cursor; [lia | exact H2 | exact H3].
Qed.

Lemma loop_words_nonempty : forall toks cur,
  Forall (fun w => (0 <? JsString.len (word w)) = true) (pushed cur) ->
  Forall (fun w => (0 <? JsString.len (word w)) = true)
    (pushed (fold_left step toks cur)).
Proof.
  induction toks as [|token toks IH]; intros cur H; [exact H|].
  simpl. apply IH. unfold wordStep.
  destruct (Z.eqb_spec (JsString.len (cleanWordOf token)) 0) as [|Hn];
    [exact H|].
  destruct (_ =? -1); [exact H|]. simpl.
  apply Forall_app. split; [exact H|].
  constructor; [|constructor]. simpl. apply Z.ltb_lt.
  unfold JsString.len in *. lia.
Qed.

End Run.

Lemma textWordsOf_chain (s : string) :
  exists toks, textWordsOf s = List.map snd toks /\ Chain s 0 toks.
Proof.
  exists (List.filter
            (fun pw => 0 <? JsString.len (JsString.trim (snd pw)))
            (splitPos false s 0)).
  split.
  - unfold textWordsOf, splitWhiteSpace.
    rewrite <- (map_snd_splitPos s false 0).
    generalize (splitPos false s 0). intros l.
    induction l as [|[p w] l IH]; simpl; [reflexivity|].
    destruct (0 <? _); simpl; rewrite IH; reflexivity.
  - apply Chain_filter.
    destruct (splitPos_chain s s 0 eq_refl ltac:(lia))
      as [(piece & rest & -> & Hp & Hc) _].
    simpl. repeat split; [lia | lia | exact Hp |]. exact Hc.
Qed.

Lemma trim_nonempty (s : string) :
  JsString.isEmpty (JsString.trim s) = false -> (0 <? JsString.len s) = true.
Proof. destruct s; [discriminate | reflexivity]. Qed.

Lemma filter_all {A} (f : A -> bool) (l : list A) :
  Forall (fun a => f a = true) l -> List.filter f l = l.
Proof.
  induction 1 as [|a l Ha _ IH]; simpl; [reflexivity|].
  rewrite Ha, IH. reflexivity.
Qed.

(** The final [filter((w) => w.word.length > 0)] drops nothing. *)
Lemma extract_flat_map items viewport :
  extractWordsFromTextContent (Some items) viewport =
    flat_map (itemWords viewport) items.
Proof.
  unfold extractWordsFromTextContent.
  induction items as [|item items IH]; [reflexivity|].
  simpl. rewrite List.filter_app, IH. f_equal.
  apply filter_all.
  unfold itemWords. destruct (str item) as [s|]; [|constructor].
  destruct (JsString.isEmpty _); [constructor|].
  apply loop_words_nonempty. constructor.
Qed.

(** C5, as the code has it: a run whose string is empty after trimming
    gives no rectangle.  Otherwise the effective height is
    max(|vertical scale|, 12), the width of a character is the run's width
    over the length of its string, and the white-space separated tokens are
    taken in order: a token with no letter a-z or A-Z, digit, underscore,
    apostrophe or hyphen pushes nothing and moves the cursor by its length
    and one; any other token is found in the run's string at or after the
    cursor and pushes the rectangle with x = x-translation + index * width
    of a character, width = width of a character * token length, y =
    viewport height - y-translation - effective height, and the midpoint as
    centre. *)
Theorem extractWords_run_spec
    (viewport : Viewport) (s : string) (t : Transform) (runWidth : float) :
  let item := {| str := Some s; transform := t; itemWidth := runWidth |} in
  let effectiveHeight :=
    Math_max (PrimFloat.abs (td t)) 12%float in
  let charWidth := (runWidth / num (JsString.len s))%float in
  let step := wordStep viewport s t charWidth in
  (forall before after,
      extractWordsFromTextContent (Some (before ++ item :: after)) viewport =
        extractWordsFromTextContent (Some before) viewport
        ++ itemWords viewport item
        ++ extractWordsFromTextContent (Some after) viewport) /\
  (JsString.isEmpty (JsString.trim s) = true ->
   itemWords viewport item = []) /\
  (JsString.isEmpty (JsString.trim s) = false ->
   itemWords viewport item = pushed (fold_left step (textWordsOf s) start) /\
   forall done token rest,
     textWordsOf s = done ++ token :: rest ->
     let cur := fold_left step done start in
     (JsString.any keptChar token = false ->
      step cur token =
        {| pushed := pushed cur;
           charOffset := charOffset cur + (JsString.len token + 1) |}) /\
     (JsString.any keptChar token = true ->
      let index := indexOf s token (charOffset cur) in
      let x := (te t + num index * charWidth)%float in
      let y := (viewportHeight viewport - tf t - effectiveHeight)%float in
      let width := (charWidth * num (JsString.len token))%float in
      charOffset cur <= index /\
      step cur token =
        {| pushed :=
             pushed cur ++
             [{| word := JsString.filter keptChar token;
                 x := x; y := y; width := width;
                 height := effectiveHeight;
                 centerX := (x + width / 2)%float;
                 centerY := (y + effectiveHeight / 2)%float |}];
           charOffset := index + JsString.len token + 1 |})).
Proof.
  intros item effectiveHeight charWidth step. split; [|split].
  - intros before after. rewrite !extract_flat_map.
    rewrite flat_map_app. reflexivity.
  - intros He. unfold itemWords. simpl. rewrite He. reflexivity.
  - intros He.
    assert (Ecw : charWidthOf s runWidth = charWidth).
    { unfold charWidthOf. rewrite (trim_nonempty s He). reflexivity. }
    split.
    + unfold itemWords. simpl. rewrite He, Ecw. reflexivity.
    + intros done token rest E cur.
      destruct (textWordsOf_chain s) as (toks & Et & Hch).
      rewrite Et in E.
      destruct (loop_reaches viewport s t charWidth done toks 0%nat start
                  token rest Hch ltac:(simpl; lia) E)
        as (p & Hc & Hp & Hocc).
      split.
      * intros Hk. apply wordStep_skipped. exact Hk.
      * intros Hk index x y width.
        destruct (wordStep_kept viewport s t charWidth cur token p
                    Hk Hc Hp Hocc) as [Hi Hs].
        split; [apply Hi|]. exact Hs.
Qed.

(** A token that is one underscore holds no letter, digit, apostrophe or
    hyphen, and still gets a rectangle: [\w] keeps the underscore. *)
Lemma underscore_token_gets_rectangle :
  JsString.any letterDigitApostropheHyphen "_" = false /\
  List.map word
    (extractWordsFromTextContent (Some [underscoreRun])
       {| viewportWidth := 600; viewportHeight := 800 |}) = ["_"].
Proof. split; vm_compute; reflexivity. Qed.

(** The run "a  !! a": the second "a" is found at 6, after the cursor. *)
Lemma extractWords_run_spec_witness :
  let viewport := {| viewportWidth := 600; viewportHeight := 800 |} in
  let t := {| ta := 10; tb := 0; tc := 0; td := 10; te := 100; tf := 700 |} in
  let s := "a  !! a" in
  let step := wordStep viewport s t (70 / num (JsString.len s))%float in
  JsString.isEmpty (JsString.trim s) = false /\
  textWordsOf s = ["a"; "!!"] ++ "a" :: [] /\
  step (fold_left step ["a"; "!!"] start) "a" =
    {| pushed :=
         [{| word := "a"; x := 100; y := 88; width := 10; height := 12;
             centerX := 105; centerY := 94 |};
          {| word := "a"; x := 160; y := 88; width := 10; height := 12;
             centerX := 165; centerY := 94 |}];
       charOffset := 8 |}.
Proof.
  intros viewport t s step.
  split; [reflexivity|]. split; [reflexivity|].
  pose proof (extractWords_run_spec viewport s t 70%float) as H.
  cbv zeta in H. destruct H as (_ & _ & H).
  destruct (H eq_refl) as [_ Hloop].
  destruct (Hloop ["a"; "!!"] "a" [] eq_refl) as [_ Hkept].
  destruct (Hkept eq_refl) as [_ E]. unfold step. rewrite E.
  vm_compute. reflexivity.
Defined.

End ExtractFacts.

(** ** Extraction followed by the hit test *)

Module RoundTrip.
Import Js Extractor Samples.








(** The other provisos are needed too.  In the run of 110 units, where
    3.5 widths of a character exceed any threshold below 35, the hit test
    at the centre of "world" returns null with the threshold -200, which
    shrinks both rectangles to nothing, and with an infinite vertical
    scale, where the centre is not a number. *)
Lemma degenerate_inputs_miss_world :
  let t := {| ta := 10; tb := 0; tc := 0; td := 10; te := 100; tf := 700 |} in
  let stretched :=
    {| ta := 10; tb := 0; tc := 0; td := infinity; te := 100; tf := 700 |} in
  findWordAtPoint
    (extractWordsFromTextContent (Some [helloWorld t 110]) viewport800)
    185 94 (-200) = None /\
  exists world,
    In world (extractWordsFromTextContent (Some [helloWorld stretched 110])
                viewport800) /\
    word world = "world" /\
    PrimFloat.is_nan (centerY world) = true /\
    findWordAtPoint
      (extractWordsFromTextContent (Some [helloWorld stretched 110])
         viewport800)
      (centerX world) (centerY world) 12 = None.
Proof.
  intros t stretched. split; [vm_compute; reflexivity|].
  exists (rectOf viewport800 stretched (110 / 11)%float "world" 6).
  split; [right; left; reflexivity|].
  split; [reflexivity|]. split; vm_compute; reflexivity.
Qed.


End RoundTrip.

(** ** Every token gets the rectangle of its own offset *)

Module OffsetFacts.
Import Js Extractor Pieces Samples.

Lemma get_drop (p : nat) : forall s j,
  String.get j (drop p s) = String.get (p + j) s.
Proof.
  induction p as [|p IH]; intros s j; [reflexivity|].
  destruct s as [|c s]; simpl; [destruct j; reflexivity|]. apply IH.
Qed.

Lemma drop_head p s c r : drop p s = String c r -> String.get p s = Some c.
Proof.
  intros E. rewrite <- (Nat.add_0_r p), <- get_drop, E. reflexivity.
Qed.

Lemma prefix_get w : forall r j c,
  String.prefix w r = true -> String.get j w = Some c ->
  String.get j r = Some c.
Proof.
  induction w as [|a w IH]; intros r j c Hp Hg; [destruct j; discriminate|].
  destruct r as [|b r]; [discriminate|]. simpl in Hp.
  destruct (ascii_dec a b) as [<-|]; [|discriminate].
  destruct j as [|j]; simpl in *; [exact Hg | eauto].
Qed.

Lemma any_get (f : ascii -> bool) w :
  JsString.any f w = true ->
  exists j c, String.get j w = Some c /\ f c = true.
Proof.
  induction w as [|a w IH]; simpl; [discriminate|].
  destruct (f a) eqn:E; simpl.
  - intros _. exists 0%nat, a. split; [reflexivity | exact E].
  - intros H. destruct (IH H) as (j & c & Hg & Hc).
    exists (S j), c. split; assumption.
Qed.

Lemma none_get (f : ascii -> bool) w :
  JsString.any f w = false ->
  forall j c, String.get j w = Some c -> f c = false.
Proof.
  induction w as [|a w IH]; simpl; intros H j c Hg;
    [destruct j; discriminate|].
  apply orb_false_iff in H. destruct H as [Ha Hw].
  destruct j as [|j]; simpl in Hg; [congruence | eauto].
Qed.

Lemma get_length w : forall j c,
  String.get j w = Some c -> (j < String.length w)%nat.
Proof.
  induction w as [|a w IH]; intros j c H; [destruct j; discriminate|].
  destruct j as [|j]; simpl in *; [lia|]. apply IH in H. lia.
Qed.

Lemma white_not_kept c :
  JsString.isWhiteSpace c = true -> keptChar c = false.
Proof.
  destruct c as [[] [] [] [] [] [] [] []]; vm_compute; congruence.
Qed.

Lemma Spaced_weaken whole from from' toks :
  (from' <= from)%nat ->
  (forall i, (from' <= i < from)%nat -> whiteAt whole i) ->
  Spaced whole from toks -> Spaced whole from' toks.
Proof.
  destruct toks as [|[p w] rest]; simpl; [trivial|].
  intros Hle Hw (H1 & H2 & H3). repeat split; try apply H3; try lia.
  intros i Hi. destruct (Nat.lt_ge_cases i from); [apply Hw | apply H2]; lia.
Qed.

Lemma Spaced_tokens whole toks : forall from,
  Spaced whole from toks ->
  Spaced whole from
    (List.filter (fun pw => negb (JsString.isEmpty (snd pw))) toks).
Proof.
  induction toks as [|[p w] rest IH]; simpl; intros from H; [trivial|].
  destruct H as (H1 & H2 & H3 & H4 & H5 & H6 & H7).
  destruct w as [|a w]; simpl.
  - apply IH. apply (Spaced_weaken _ (p + 0)%nat); [lia | | exact H7].
    intros i Hi. apply H2. lia.
  - repeat split; try assumption; try lia. apply IH. exact H7.
Qed.

Lemma splitPos_spaced (whole s : string) : forall pos,
  drop pos whole = s -> (pos <= String.length whole)%nat ->
  (exists piece rest,
      splitPos false s pos = (pos, piece) :: rest /\
      String.prefix piece s = true /\
      noWhiteSpace piece /\
      endsAt whole (pos + String.length piece) /\
      Spaced whole (pos + String.length piece) rest) /\
  (startsAt whole pos -> Spaced whole pos (splitPos true s pos)).
Proof.
  induction s as [|c s IH]; intros pos Hd Hl.
  - assert (Hend : endsAt whole (pos + 0)).
    { left. rewrite <- get_drop, Hd. reflexivity. }
    split.
    + exists EmptyString, []. repeat split. exact Hend.
    + intros Hs. simpl.
      split; [lia|]. split; [intros i Hi; lia|]. split; [exact Hs|].
      split; [exact Hend|]. split; [apply ExtractFacts.prefix_empty|].
      split; [reflexivity | exact I].
  - pose proof (ExtractFacts.drop_length pos whole Hl) as Hlen.
    rewrite Hd in Hlen. simpl in Hlen.
    pose proof (drop_head _ _ _ _ Hd) as Hc.
    destruct (IH (S pos) (ExtractFacts.drop_step _ _ _ _ Hd) ltac:(lia))
      as [(piece & rest & E & Hp & Hn & He & Hs) Ht].
    simpl. destruct (JsString.isWhiteSpace c) eqn:Ew.
    + assert (Hwhite : whiteAt whole pos) by (exists c; split; assumption).
      assert (Hnext : Spaced whole (S pos) (splitPos true s (S pos))).
      { apply Ht. right. simpl. rewrite Nat.sub_0_r. exact Hwhite. }
      assert (Hhere : Spaced whole pos (splitPos true s (S pos))).
      { apply (Spaced_weaken _ (S pos)); [lia | | exact Hnext].
        intros i Hi. replace i with pos by lia. exact Hwhite. }
      split.
      * exists EmptyString, (splitPos true s (S pos)).
        repeat split; rewrite ?Nat.add_0_r; try assumption.
        right. exact Hwhite.
      * intros _. exact Hhere.
    + rewrite E.
      assert (Hpre : String.prefix (String c piece) (String c s) = true).
      { simpl. destruct (ascii_dec c c); [exact Hp | contradiction]. }
      assert (Hnw : noWhiteSpace (String c piece)).
      { unfold noWhiteSpace. simpl. rewrite Ew. exact Hn. }
      assert (Hlen' : (pos + String.length (String c piece)
                       = S pos + String.length piece)%nat)
        by (simpl; lia).
      split.
      * exists (String c piece), rest. rewrite Hlen'.
        repeat split; assumption.
      * intros Hstart. simpl. rewrite Hd.
        replace (pos + S (String.length piece))%nat
          with (S pos + String.length piece)%nat by lia.
        repeat split; try assumption; lia.
Qed.

(** No character of [s] from [c] up to [p] is one the cleaning keeps. *)
Definition NothingKept (s : string) (c p : nat) : Prop :=
  forall i ch, (c <= i < p)%nat -> String.get i s = Some ch ->
               keptChar ch = false.

(** A token with a kept character is not found before its own offset when
    nothing on the way is kept. *)
Lemma search_exact (w s : string) (p : nat) :
  String.prefix w (drop p s) = true ->
  JsString.any keptChar w = true ->
  noWhiteSpace w ->
  startsAt s p ->
  forall k c,
    (c + k = p)%nat -> NothingKept s c p ->
    search w (drop c s) (Z.of_nat c) = Z.of_nat p.
Proof.
  intros Hocc Hkept Hnw Hstart.
  induction k as [|k IH]; intros c Hck Hnk; rewrite ExtractFacts.search_unfold.
  - replace c with p by lia. rewrite Hocc. reflexivity.
  - destruct (String.prefix w (drop c s)) eqn:Epre.
    + exfalso.
      destruct (any_get _ _ Hkept) as (j & ch & Hj & Hch).
      pose proof (prefix_get _ _ _ _ Epre Hj) as Hs.
      rewrite get_drop in Hs.
      destruct (Nat.lt_ge_cases (c + j) p) as [Hlt | Hge].
      * rewrite (Hnk (c + j)%nat ch ltac:(lia) Hs) in Hch. discriminate.
      * destruct Hstart as [-> | (b & Hb & Hwb)]; [lia|].
        assert (Hm : exists a, String.get (p - 1 - c) w = Some a).
        { destruct (String.get (p - 1 - c) w) as [a|] eqn:E; [eauto|].
          exfalso. pose proof (get_length _ _ _ Hj) as Hjl.
          clear -E Hjl Hge Hck.
          assert (Hlt : (p - 1 - c < String.length w)%nat) by lia.
          revert E Hlt. generalize (p - 1 - c)%nat. clear.
          induction w as [|a w IHw]; intros n E Hlt; simpl in *; [lia|].
          destruct n as [|n]; [discriminate|]. apply (IHw n E). lia. }
        destruct Hm as (a & Ha).
        pose proof (prefix_get _ _ _ _ Epre Ha) as Hsa.
        rewrite get_drop in Hsa.
        replace (c + (p - 1 - c))%nat with (p - 1)%nat in Hsa by lia.
        rewrite Hb in Hsa. injection Hsa as <-.
        rewrite (none_get _ _ Hnw _ _ Ha) in Hwb. discriminate.
    + destruct (drop c s) as [|ch s'] eqn:Ed.
      * exfalso.
        assert (Hpc : drop p s = EmptyString).
        { replace p with (c + S k)%nat by lia.
          clear -Ed. revert s Ed.
          induction c as [|c IHc]; intros s Ed.
          - simpl in Ed. subst. reflexivity.
          - destruct s as [|d s]; [reflexivity|].
            simpl in Ed. simpl. apply IHc. exact Ed. }
        rewrite Hpc in Hocc. destruct w; discriminate.
      * rewrite <- (ExtractFacts.drop_step _ _ _ _ Ed).
        replace (Z.of_nat c + 1) with (Z.of_nat (S c)) by lia.
        apply IH; [lia|]. intros i a Hi. apply Hnk. lia.
Qed.

Lemma indexOf_exact (w s : string) (c p : nat) :
  (c <= p <= String.length s)%nat ->
  String.prefix w (drop p s) = true ->
  JsString.any keptChar w = true ->
  noWhiteSpace w ->
  startsAt s p ->
  NothingKept s c p ->
  indexOf s w (Z.of_nat c) = Z.of_nat p.
Proof.
  intros Hr Hocc Hkept Hnw Hstart Hnk. unfold indexOf, JsString.len.
  replace (Z.min (Z.max (Z.of_nat c) 0) (Z.of_nat (String.length s)))
    with (Z.of_nat c) by lia.
  rewrite Nat2Z.id.
  apply (search_exact w s p Hocc Hkept Hnw Hstart (p - c)%nat c); [lia|].
  exact Hnk.
Qed.

Lemma get_in_range w : forall j,
  (j < String.length w)%nat -> exists a, String.get j w = Some a.
Proof.
  induction w as [|a w IH]; intros j H; simpl in *; [lia|].
  destruct j as [|j]; [eauto|]. apply IH. lia.
Qed.

(** After a piece that ends where [endsAt] says, a non-empty piece starts
    further on. *)
Lemma next_is_further whole q p' w' rest :
  endsAt whole q ->
  Spaced whole q ((p', w') :: rest) ->
  w' <> EmptyString ->
  (q < p')%nat.
Proof.
  intros Hend (Hr & _ & _ & _ & Hocc & Hnw & _) Hne.
  destruct (Nat.eq_dec q p') as [->|]; [exfalso | lia].
  destruct w' as [|a w']; [contradiction|].
  pose proof (prefix_get _ _ 0%nat a Hocc eq_refl) as Hg.
  rewrite get_drop, Nat.add_0_r in Hg.
  destruct Hend as [Hnone | (b & Hb & Hwb)]; [congruence|].
  rewrite Hg in Hb. injection Hb as <-.
  rewrite (none_get _ _ Hnw 0%nat a eq_refl) in Hwb. discriminate.
Qed.

Section Offsets.

Variable viewport : Viewport.
Variable whole : string.
Variable t : Transform.
Variable charWidth : float.

Local Abbreviation step := (wordStep viewport whole t charWidth).

Definition rectAt (pw : nat * string) : WordRect :=
  rectOf viewport t charWidth (snd pw) (Z.of_nat (fst pw)).

Definition keptToken (pw : nat * string) : bool :=
  JsString.any keptChar (snd pw).

(** The inner loop over tokens given with their offsets pushes, for each
    token with a kept character, the rectangle of its offset. *)
Lemma loop_offsets : forall toks from cur c,
  Spaced whole from toks ->
  Forall (fun pw => snd pw <> EmptyString) toks ->
  charOffset cur = Z.of_nat c ->
  match toks with
  | [] => True
  | (p, _) :: _ => (c <= p)%nat /\ NothingKept whole c p
  end ->
  pushed (fold_left step (List.map snd toks) cur) =
    pushed cur ++ List.map rectAt (List.filter keptToken toks).
Proof.
  induction toks as [|[p w] rest IH]; intros from cur c Hsp Hne Hcur Hinv.
  - simpl. rewrite app_nil_r. reflexivity.
  - destruct Hsp as (Hr & Hgap & Hstart & Hend & Hocc & Hnw & Hrest).
    destruct Hinv as [Hcp Hnk].
    inversion Hne as [|? ? Hw Hne']; subst.
    assert (Hnext : match rest with
                    | [] => True
                    | (p', _) :: _ => (p + String.length w < p')%nat
                    end).
    { destruct rest as [|[p' w'] rest']; [exact I|].
      apply (next_is_further whole _ p' w' rest' Hend Hrest).
      inversion Hne'; assumption. }
    assert (Hwhite : match rest with
                     | [] => True
                     | (p', _) :: _ =>
                         NothingKept whole (p + String.length w) p'
                     end).
    { destruct rest as [|[p' w'] rest']; [exact I|].
      destruct Hrest as (_ & Hgap' & _).
      intros i ch Hi Hg. destruct (Hgap' i Hi) as (b & Hb & Hwb).
      rewrite Hg in Hb. injection Hb as <-. apply white_not_kept, Hwb. }
    cbn [List.map fold_left List.filter]. unfold keptToken at 1. cbn [snd].
    destruct (JsString.any keptChar w) eqn:Hk.
    + (* the token is found at its offset and pushed *)
      assert (Eidx : indexOf whole w (charOffset cur) = Z.of_nat p).
      { rewrite Hcur. apply indexOf_exact; try assumption. lia. }
      assert (Estep : step cur w =
                {| pushed := pushed cur ++ [rectAt (p, w)];
                   charOffset := Z.of_nat (p + String.length w + 1) |}).
      { unfold wordStep, cleanWordOf.
        rewrite ExtractFacts.len_filter_zero, Hk. cbn [negb]. rewrite Eidx.
        destruct (Z.eqb_spec (Z.of_nat p) (-1)); [lia|].
        unfold rectAt, JsString.len. cbn [fst snd]. f_equal. lia. }
      rewrite Estep.
      rewrite (IH (p + String.length w)%nat
                 {| pushed := pushed cur ++ [rectAt (p, w)];
                    charOffset := Z.of_nat (p + String.length w + 1) |}
                 (p + String.length w + 1)%nat Hrest Hne' eq_refl).
      * cbn [pushed List.map]. rewrite <- app_assoc. reflexivity.
      * destruct rest as [|[p' w'] rest']; [exact I|].
        split; [lia|]. intros i ch Hi. apply Hwhite. lia.
    + (* the token is skipped *)
      rewrite (ExtractFacts.wordStep_skipped viewport whole t charWidth
                 cur w Hk).
      rewrite (IH (p + String.length w)%nat _
                 (c + String.length w + 1)%nat Hrest Hne').
      * reflexivity.
      * cbn [charOffset]. rewrite Hcur. unfold JsString.len. lia.
      * destruct rest as [|[p' w'] rest']; [exact I|].
        split; [lia|]. intros i ch Hi Hg.
        destruct (Nat.lt_ge_cases i p) as [H1 | H1];
          [apply (Hnk i ch); [lia | exact Hg]|].
        destruct (Nat.lt_ge_cases i (p + String.length w)) as [H2 | H2];
          [|apply (Hwhite i ch); [lia | exact Hg]].
        destruct (get_in_range w (i - p) ltac:(lia)) as (a & Ha).
        pose proof (prefix_get _ _ _ _ Hocc Ha) as Hs.
        rewrite get_drop in Hs.
        replace (p + (i - p))%nat with i in Hs by lia.
        rewrite Hg in Hs. injection Hs as ->.
        exact (none_get _ _ Hk _ _ Ha).
Qed.

End Offsets.

Lemma trim_noWhiteSpace w : noWhiteSpace w -> JsString.trim w = w.
Proof.
  unfold noWhiteSpace, JsString.trim. intros H.
  assert (E : JsString.trimStart w = w).
  { destruct w as [|a w]; [reflexivity|]. simpl in *.
    apply orb_false_iff in H. destruct H as [-> _]. reflexivity. }
  rewrite E. clear E.
  induction w as [|a w IH]; [reflexivity|]. simpl in *.
  apply orb_false_iff in H. destruct H as [Ha Hw].
  rewrite Ha, (IH Hw). reflexivity.
Qed.

Lemma Spaced_words whole toks : forall from,
  Spaced whole from toks ->
  List.filter (fun w => 0 <? JsString.len (JsString.trim w))
    (List.map snd toks) =
  List.map snd
    (List.filter (fun pw => negb (JsString.isEmpty (snd pw))) toks).
Proof.
  induction toks as [|[p w] rest IH]; intros from H; [reflexivity|].
  destruct H as (_ & _ & _ & _ & _ & Hnw & Hrest).
  cbn [List.map List.filter snd]. rewrite (trim_noWhiteSpace w Hnw).
  rewrite (IH _ Hrest). destruct w; reflexivity.
Qed.

Lemma Spaced_in whole toks : forall from p w,
  Spaced whole from toks -> In (p, w) toks ->
  noWhiteSpace w /\ String.prefix w (drop p whole) = true /\
  startsAt whole p /\ endsAt whole (p + String.length w).
Proof.
  induction toks as [|[q v] rest IH]; intros from p w H Hin; [destruct Hin|].
  destruct H as (_ & _ & Hs & He & Ho & Hn & Hrest).
  destruct Hin as [[= <- <-] | Hin]; [repeat split; assumption|].
  exact (IH _ p w Hrest Hin).
Qed.

Lemma splitPos_whole s : Spaced s 0 (splitPos false s 0).
Proof.
  destruct (splitPos_spaced s s 0 eq_refl ltac:(lia))
    as [(piece & rest & -> & Hp & Hn & He & Hs) _].
  simpl. split; [lia|]. split; [intros i Hi; lia|].
  split; [left; reflexivity|]. repeat split; assumption.
Qed.

(** X1: the tokens of a run are its white-space delimited words, each at its
    own offset; a run not empty after trimming gets, for each token with a
    character the cleaning keeps, one rectangle, placed by the token's own
    offset, also when the same word stands earlier in the run. *)
Theorem itemWords_at_token_offsets
    (viewport : Viewport) (s : string) (t : Transform) (runWidth : float) :
  JsString.isEmpty (JsString.trim s) = false ->
  (forall p w, In (p, w) (tokensOf s) -> Token s p w) /\
  itemWords viewport {| str := Some s; transform := t; itemWidth := runWidth |}
  = List.map
      (fun pw =>
         rectOf viewport t (runWidth / num (JsString.len s))%float
           (snd pw) (Z.of_nat (fst pw)))
      (List.filter (fun pw => JsString.any keptChar (snd pw)) (tokensOf s)).
Proof.
  intros He.
  pose proof (Spaced_tokens s _ 0%nat (splitPos_whole s)) as Hsp.
  fold (tokensOf s) in Hsp.
  assert (Hne : Forall (fun pw : nat * string => snd pw <> EmptyString)
                  (tokensOf s)).
  { unfold tokensOf. generalize (splitPos false s 0). intros l.
    induction l as [|[p w] l IH]; simpl; [constructor|].
    destruct w; simpl; [exact IH|]. constructor; [discriminate | exact IH]. }
  split.
  - intros p w Hin.
    destruct (Spaced_in s _ 0%nat p w Hsp Hin) as (Hn & Ho & Hs & Hend).
    repeat split; try assumption.
    pose proof (proj1 (Forall_forall _ _) Hne (p, w)) as H.
    apply H. apply list_elem_of_In. exact Hin.
  - unfold itemWords. cbn [str transform itemWidth]. rewrite He.
    unfold charWidthOf. rewrite (ExtractFacts.trim_nonempty s He).
    assert (Ew : textWordsOf s = List.map snd (tokensOf s)).
    { unfold textWordsOf, splitWhiteSpace, tokensOf.
      rewrite <- (ExtractFacts.map_snd_splitPos s false 0).
      apply (Spaced_words s _ 0%nat (splitPos_whole s)). }
    rewrite Ew.
    rewrite (loop_offsets viewport s t _ (tokensOf s) 0%nat start 0%nat
               Hsp Hne eq_refl).
    + reflexivity.
    + destruct (tokensOf s) as [|[p w] rest]; [exact I|].
      split; [lia|]. intros i ch Hi Hg.
      destruct Hsp as (_ & Hgap & _).
      destruct (Hgap i Hi) as (b & Hb & Hwb).
      rewrite Hg in Hb. injection Hb as <-. apply white_not_kept, Hwb.
Qed.

(** In "to be or not to be" the second "to" and the second "be" get the
    rectangles of offsets 13 and 16. *)
Lemma itemWords_at_token_offsets_witness :
  List.map (fun w => (word w, x w))
    (itemWords viewport800
       {| str := Some "to be or not to be";
          transform := {| ta := 10; tb := 0; tc := 0; td := 10;
                          te := 0; tf := 700 |};
          itemWidth := 180 |})
  = [("to", 0); ("be", 30); ("or", 60); ("not", 90); ("to", 130);
     ("be", 160)]%float.
Proof.
  rewrite (proj2 (itemWords_at_token_offsets viewport800
                    "to be or not to be" _ 180 eq_refl)).
  vm_compute. reflexivity.
Defined.

End OffsetFacts.

(** ** Teardown *)

Module TeardownFacts.
Import Viewer.

(** [cleanup] ends normally, whichever calls throw. *)
Lemma cleanup_normal throws v : fst (cleanup throws v) = Normal.
Proof.
  unfold cleanup, seq, whenSet, tryIgnoring, assign.
  destruct (renderTaskRef v); simpl; destruct (pdfPageRef v); reflexivity.
Qed.

Lemma cleanupDoc_eval throws v : cleanupDoc throws v = (Normal, tornDown v).
Proof.
  destruct v as [l e r cp np rp ht nt doc page task tok nr eff].
  unfold tornDown, teardownCalls, cleanupDoc, cleanup, seq, whenSet,
    tryIgnoring, assign, call, emit.
  destruct task as [task|], page as [page|], doc as [doc|]; simpl;
    rewrite <- ?app_assoc, ?app_nil_r; reflexivity.
Qed.

Lemma tornDown_twice v : tornDown (tornDown v) = tornDown v.
Proof.
  unfold tornDown, teardownCalls. simpl. rewrite app_nil_r. reflexivity.
Qed.

(** C9: [cleanupDoc] cancels the render task, cleans up the page and
    destroys the document, whichever of them are set, in this order; it
    ends normally even when these calls throw; afterwards the three
    references are null and nothing else of the state has changed, so a
    second call right after makes no call, changes nothing and ends
    normally. *)
Theorem cleanupDoc_idempotent (throws : Effect -> bool) (v : State) :
  let after := snd (cleanupDoc throws v) in
  fst (cleanupDoc throws v) = Normal /\
  renderTaskRef after = None /\
  pdfPageRef after = None /\
  pdfDocRef after = None /\
  effects after =
    effects v
    ++ match renderTaskRef v with Some task => [Cancel task] | None => [] end
    ++ match pdfPageRef v with Some page => [CleanupPage page] | None => [] end
    ++ match pdfDocRef v with Some doc => [Destroy doc] | None => [] end /\
  after =
    set_pdfDocRef None
      (set_pdfPageRef None
         (set_renderTaskRef None (set_effects (effects after) v))) /\
  cleanupDoc throws after = (Normal, after).
Proof.
  intros after. unfold after. rewrite !cleanupDoc_eval. cbn [fst snd].
  rewrite tornDown_twice. repeat split.
Qed.

End TeardownFacts.

(** * The render lifecycle *)

Module LifecycleFacts.
Import Viewer Navigation Loading.

(** What a run of the component never changes: nothing is rendered or
    being rendered, page 1 is the current page, the render token is 0, no
    rerender is asked for, and no page and no render task is held. *)
Definition Unrendered (v : State) : Prop :=
  rendered v = false /\ renderingPage v = false /\ currentPage v = 1 /\
  renderTokenRef v = 0 /\ needsRerender v = false /\
  pdfPageRef v = None /\ renderTaskRef v = None.

(** Where [loadPdf] ends by its [catch] block. *)
Definition errorOf (e : Dictionary.Thrown) : string :=
  match e with
  | Dictionary.ErrorObj message =>
      if includes message "PDF.js library failed" then cdnMessage
      else message
  | Dictionary.NonError => "Failed to load PDF"
  end.

Ltac conjuncts := repeat match goal with |- _ /\ _ => split end.

Ltac unrendered H :=
  destruct H as (?H & ?H & ?H & ?H & ?H & ?H & ?H);
  unfold Unrendered; simpl; repeat split; assumption.

Section Lifecycle.

Variable throws : Effect -> bool.
Variable env : Env.
Variable referenceErrorMessage : string.

Local Abbreviation renderPage := (renderPage env referenceErrorMessage).
Local Abbreviation handlePageChange :=
  (handlePageChange env referenceErrorMessage).
Local Abbreviation act := (act env referenceErrorMessage).
Local Abbreviation resumeLoad := (resumeLoad env referenceErrorMessage).
Local Abbreviation happen := (happen throws env referenceErrorMessage).
Local Abbreviation live := (live throws env referenceErrorMessage).
Local Abbreviation thrown := (referenceError referenceErrorMessage).

(** [renderPage] returns false or throws; it never returns true. *)
Lemma renderPage_outcome pageNum v :
  renderPage pageNum v = Dictionary.Returns false \/
  renderPage pageNum v = Dictionary.Throws thrown.
Proof.
  unfold Viewer.renderPage.
  destruct (canvas env); cbn [negb]; [|left; reflexivity].
  destruct (pdfDocRef v); [|left; reflexivity].
  destruct (context2d env); cbn [negb]; [right | left]; reflexivity.
Qed.

(** Past its guards it throws. *)
Lemma renderPage_throws pageNum v doc :
  canvas env = true -> context2d env = true -> pdfDocRef v = Some doc ->
  renderPage pageNum v = Dictionary.Throws thrown.
Proof.
  intros Hc Hx Hd. unfold Viewer.renderPage. rewrite Hc, Hd, Hx.
  reflexivity.
Qed.

(** While nothing is rendered there are no page buttons and neither the
    key listener nor the resize listener is set up: no input does
    anything. *)
Lemma act_inert s i : rendered (state s) = false -> act s i = s.
Proof.
  intros H. destruct s as [v calls]. simpl in H.
  destruct i as [| |key|]; unfold Navigation.act; simpl.
  - unfold prevClicked. rewrite H. reflexivity.
  - unfold nextClicked. rewrite H. reflexivity.
  - unfold handleKeyDown. rewrite H. reflexivity.
  - unfold handleResize. rewrite H. simpl. rewrite app_nil_r. reflexivity.
Qed.

Lemma caught_eq e v : caught e v = set_error (Some (errorOf e)) v.
Proof.
  destruct e as [message|]; simpl; [|reflexivity].
  destruct (includes message _); reflexivity.
Qed.

Lemma tornDown_unrendered v : Unrendered v -> Unrendered (tornDown v).
Proof. intros H. unrendered H. Qed.

Lemma initial_unrendered : Unrendered initial.
Proof. repeat split. Qed.

Lemma fileEffect_unrendered f v :
  Unrendered v -> Unrendered (fst (fileEffect throws f v)).
Proof.
  intros H. destruct f as [f|]; simpl.
  - unfold loadPdf, failed. cbv zeta.
    rewrite (TeardownFacts.cleanupDoc_eval throws), caught_eq.
    destruct (negb (includes (type f) "pdf")); unrendered H.
  - unfold noFile. rewrite (TeardownFacts.cleanupDoc_eval throws).
    unrendered H.
Qed.

Lemma effectCleanup_unrendered previous v :
  Unrendered v -> Unrendered (effectCleanup throws previous v).
Proof.
  intros H. destruct previous; simpl; [|exact H].
  rewrite (TeardownFacts.cleanupDoc_eval throws).
  apply tornDown_unrendered, H.
Qed.

Lemma resumeLoad_unrendered p r v v' status :
  resumeLoad p r v = Some (v', status) -> Unrendered v -> Unrendered v'.
Proof.
  unfold Loading.resumeLoad, failed.
  destruct p, r as [[]|[[doc pages]|e]]; try discriminate;
    try rewrite caught_eq.
  - intros [= <- <-] H. exact H.
  - intros [= <- <-] H. unrendered H.
  - destruct (renderPage 1 _) as [b|e]; try rewrite caught_eq;
      intros [= <- <-] H; unrendered H.
  - intros [= <- <-] H. unrendered H.
Qed.

Lemma happen_unrendered m h :
  Unrendered (state (sys m)) -> Unrendered (state (sys (happen m h))).
Proof.
  intros H. destruct h as [i|f|i r]; simpl.
  - rewrite (act_inert (sys m) i (proj1 H)). exact H.
  - apply fileEffect_unrendered, effectCleanup_unrendered, H.
  - destruct (loads m !! i) as [p|]; [|exact H].
    destruct (resumeLoad p r (state (sys m))) as [[v status]|] eqn:E;
      [|exact H].
    simpl. exact (resumeLoad_unrendered _ _ _ _ _ E H).
Qed.

Lemma live_unrendered happenings :
  forall m, Unrendered (state (sys m)) ->
            Unrendered (state (sys (live m happenings))).
Proof.
  induction happenings as [|h happenings IH]; intros m H; [exact H|].
  simpl. apply IH, happen_unrendered, H.
Qed.

Lemma mount_unrendered f : Unrendered (state (sys (mount throws f))).
Proof. apply fileEffect_unrendered, initial_unrendered. Qed.

(** Every state a run reaches. *)
Lemma reached_unrendered f happenings :
  Unrendered (state (sys (live (mount throws f) happenings))).
Proof. apply live_unrendered, mount_unrendered. Qed.

Lemma does_inert m i :
  Unrendered (state (sys m)) -> happen m (Does i) = m.
Proof.
  intros H. unfold Loading.happen.
  rewrite (act_inert (sys m) i (proj1 H)). destruct m. reflexivity.
Qed.

(** What holds when the component is mounted and is kept by whatever
    happens to an unrendered component holds in every state a run
    reaches. *)
Lemma reached_induction (P : Mounted -> Prop) f happenings :
  P (mount throws f) ->
  (forall m h, Unrendered (state (sys m)) -> P m -> P (happen m h)) ->
  P (live (mount throws f) happenings).
Proof.
  intros Hmount Hstep.
  assert (H : forall m, Unrendered (state (sys m)) -> P m ->
                        P (live m happenings)).
  { induction happenings as [|h happenings IH]; intros m Hu Hp;
      [exact Hp|].
    simpl. apply IH; [apply happen_unrendered, Hu | apply Hstep; assumption]. }
  apply H; [apply mount_unrendered | exact Hmount].
Qed.



End Lifecycle.

(** C1, as the code has it: [renderPage] captures no token.  Past its
    guards it reads [localToken], which nothing declares, and throws a
    [ReferenceError] before it sets, fetches or renders anything; it never
    reaches a re-check and never returns true.  Whatever file the component
    is mounted with and whatever happens to it, the render token stays 0,
    nothing is rendered or being rendered and no page handle is stored.
    When a PDF file has been read and its three-page document has arrived,
    the [renderPage(1)] that [loadPdf] calls throws, and [loadPdf] ends
    with the error of that exception. *)
Theorem render_token_never_advances
    (throws : Effect -> bool) (env : Env) (referenceErrorMessage : string)
    (f : option File) (happenings : list Happening) :
  let v :=
    state (sys (live throws env referenceErrorMessage (mount throws f)
                  happenings)) in
  let first := opened "localToken is not defined" in
  (renderTokenRef v = 0 /\ rendered v = false /\ renderingPage v = false /\
   pdfPageRef v = None /\ renderTaskRef v = None) /\
  (forall pageNum w,
      renderPage env referenceErrorMessage pageNum w
        = Dictionary.Returns false \/
      renderPage env referenceErrorMessage pageNum w
        = Dictionary.Throws (Dictionary.ErrorObj referenceErrorMessage)) /\
  (forall pageNum w doc,
      canvas env = true -> context2d env = true ->
      pdfDocRef w = Some doc ->
      renderPage env referenceErrorMessage pageNum w
        = Dictionary.Throws (Dictionary.ErrorObj referenceErrorMessage)) /\
  (pdfDocRef (state (sys first)) = Some 7%nat /\
   numPages (state (sys first)) = 3 /\
   started (sys first) = [1] /\
   renderPage browser "localToken is not defined" 1 (state (sys first))
     = Dictionary.Throws (Dictionary.ErrorObj "localToken is not defined") /\
   error (state (sys first)) = Some "localToken is not defined" /\
   loading (state (sys first)) = false /\
   rendered (state (sys first)) = false /\
   renderTokenRef (state (sys first)) = 0 /\
   pdfPageRef (state (sys first)) = None).
Proof.
  cbv zeta.
  destruct (reached_unrendered throws env referenceErrorMessage f happenings)
    as (Hr & Hg & _ & Ht & _ & Hp & Hk).
  split; [repeat split; assumption|].
  split; [intros pageNum w; apply renderPage_outcome|].
  split.
  - intros pageNum w doc Hc Hx Hd.
    exact (renderPage_throws env referenceErrorMessage pageNum w doc
             Hc Hx Hd).
  - conjuncts; vm_compute; reflexivity.
Qed.




End LifecycleFacts.

(** ** Canonical keys, and what the cache holds *)

Module DictionaryOpsFacts.
Import Dictionary DictionaryOps.

Lemma lower_letter c :
  JsString.isLower c = true ->
  JsString.toLowerChar c = c /\ JsString.isWhiteSpace c = false.
Proof.
  destruct c as [[] [] [] [] [] [] [] []]; vm_compute; intros H;
    try discriminate; split; reflexivity.
Qed.

Lemma map_letters (s : string) :
  JsString.all JsString.isLower s = true -> JsString.toLowerCase s = s.
Proof.
  induction s as [|c s IH]; simpl; [reflexivity|].
  intros H. apply andb_true_iff in H. destruct H as [Hc Hs].
  unfold JsString.toLowerCase in *. simpl.
  rewrite (proj1 (lower_letter c Hc)), (IH Hs). reflexivity.
Qed.

Lemma letters_noWhiteSpace (s : string) :
  JsString.all JsString.isLower s = true -> Pieces.noWhiteSpace s.
Proof.
  unfold Pieces.noWhiteSpace.
  induction s as [|c s IH]; simpl; [reflexivity|].
  intros H. apply andb_true_iff in H. destruct H as [Hc Hs].
  rewrite (proj2 (lower_letter c Hc)), (IH Hs). reflexivity.
Qed.

Lemma filter_letters (p : ascii -> bool) (s : string) :
  JsString.all p s = true -> JsString.filter p s = s.
Proof.
  induction s as [|c s IH]; simpl; [reflexivity|].
  intros H. apply andb_true_iff in H. destruct H as [Hc Hs].
  rewrite Hc, (IH Hs). reflexivity.
Qed.

(** A string of letters a-z is its own normal form. *)
Lemma normalized_letters (s : string) :
  JsString.all JsString.isLower s = true -> normalized s = s.
Proof.
  intros H. unfold normalized.
  rewrite (map_letters s H),
          (OffsetFacts.trim_noWhiteSpace s (letters_noWhiteSpace s H)).
  apply filter_letters, H.
Qed.

(** What [normalizeWord] returns is made of two or more letters a-z, and
    [normalizeWord] returns it unchanged. *)
Lemma normalizeWord_fixed (rawWord key : string) :
  normalizeWord rawWord = Some key ->
  JsString.all JsString.isLower key = true /\
  2 <= JsString.len key /\
  normalizeWord key = Some key.
Proof.
  unfold normalizeWord. cbv zeta.
  destruct (JsString.len (normalized rawWord) <? 2) eqn:El; [discriminate|].
  simpl. destruct (lettersOnly (normalized rawWord)) eqn:Eo; [|discriminate].
  intros [= <-]. simpl.
  assert (Hall : JsString.all JsString.isLower (normalized rawWord) = true)
    by apply all_filter.
  split; [exact Hall|]. split; [apply Z.ltb_ge, El|].
  rewrite (normalized_letters _ Hall), El, Eo. reflexivity.
Qed.

(** X3: whatever [normalizeWord] returns consists of at least two letters
    a-z and is returned unchanged when normalized again. *)
Theorem normalizeWord_canonical (rawWord key : string) :
  normalizeWord rawWord = Some key ->
  JsString.all JsString.isLower key = true /\
  2 <= JsString.len key /\
  normalizeWord key = Some key.
Proof. apply normalizeWord_fixed. Qed.

Lemma normalizeWord_canonical_witness :
  JsString.all JsString.isLower "dont" = true /\
  2 <= JsString.len "dont" /\
  normalizeWord "dont" = Some "dont".
Proof. apply (normalizeWord_canonical " Don't " "dont"). reflexivity. Defined.

Section Engine.

Variable typeErrorMessage : string.
Variable net : nat -> string -> FetchOutcome.

Local Abbreviation lookup := (fetchDefinition typeErrorMessage net).
Local Abbreviation perform := (perform typeErrorMessage net).

(** [find((p) => p.text)] throws exactly on a null met before any element
    with a truthy [text]. *)
Lemma findText_throws (items : list json) (e : Thrown) :
  findText typeErrorMessage items = Throws e <->
  e = ErrorObj typeErrorMessage /\ NullBeforeText items.
Proof.
  induction items as [|p rest IH].
  - simpl. split; [discriminate|].
    intros (_ & before & after & E & _). destruct before; discriminate.
  - assert (Hnull : p = JNull ->
              (findText typeErrorMessage (p :: rest) = Throws e <->
               e = ErrorObj typeErrorMessage /\ NullBeforeText (p :: rest))).
    { intros ->. simpl. unfold typeError. split.
      - intros [= <-]. split; [reflexivity|].
        exists [], rest. split; [reflexivity | intros ? []].
      - intros [-> _]. reflexivity. }
    assert (Hother : p <> JNull ->
              findText typeErrorMessage (p :: rest) =
                (if truthy (getProp "text" p) then Returns (Some p)
                 else findText typeErrorMessage rest)).
    { intros Hp. destruct p; try reflexivity. now elim Hp. }
    destruct (match p with JNull => true | _ => false end) eqn:Ep.
    + apply Hnull. destruct p; try discriminate. reflexivity.
    + assert (Hp : p <> JNull) by (intros ->; discriminate).
      rewrite (Hother Hp).
      destruct (truthy (getProp "text" p)) eqn:Et.
      * split; [discriminate|].
        intros (_ & before & after & E & Hb).
        destruct before as [|q before]; simpl in E.
        -- injection E as E _. contradiction.
        -- injection E as <- _. rewrite (Hb p) in Et by (left; reflexivity).
           discriminate.
      * rewrite IH. split; intros (He & before & after & E & Hb);
          (split; [exact He|]).
        -- exists (p :: before), after. split; [simpl; rewrite E; reflexivity|].
           intros q [<- | Hq]; [exact Et | apply Hb, Hq].
        -- destruct before as [|q before]; simpl in E.
           ++ injection E as E _. contradiction.
           ++ injection E as _ E. exists before, after.
              split; [exact E|]. intros q' Hq'. apply Hb. right. exact Hq'.
Qed.

Lemma phoneticsText_throws (firstEntry : jsval) (e : Thrown) :
  phoneticsText typeErrorMessage firstEntry = Throws e <->
  e = ErrorObj typeErrorMessage /\
  BadPhonetics (optProp "phonetics" firstEntry).
Proof.
  unfold phoneticsText, BadPhonetics.
  destruct (optProp "phonetics" firstEntry) as [[| | | |items|]|];
    try (split; [discriminate | intros [_ []]]);
    try (unfold typeError; split;
         [intros [= <-]; split; [reflexivity | exact I]
         | intros [-> _]; reflexivity]).
  rewrite <- findText_throws.
  destruct (findText typeErrorMessage items); simpl;
    split; congruence.
Qed.

(** X7: reading a parsed body fails exactly when the body is null, or when
    the first entry has no truthy [phonetic] and its [phonetics] is neither
    missing, null nor an array, or is an array with a null before any
    element whose [text] is truthy; what is thrown is the engine's type
    error. *)
Theorem buildResult_throws (key : string) (data : json) (e : Thrown) :
  buildResult typeErrorMessage key data = Throws e <->
  e = ErrorObj typeErrorMessage /\
  (data = JNull \/
   (truthy (optProp "phonetic" (getIndex0 data)) = false /\
    BadPhonetics (optProp "phonetics" (getIndex0 data)))).
Proof.
  unfold buildResult, first.
  destruct (match data with JNull => true | _ => false end) eqn:Ed.
  - destruct data; try discriminate. simpl. unfold typeError. split.
    + intros [= <-]. split; [reflexivity | left; reflexivity].
    + intros [-> _]. reflexivity.
  - assert (Hd : data <> JNull) by (intros ->; discriminate).
    assert (E : (match data with
                 | JNull => typeError typeErrorMessage
                 | _ => Returns (getIndex0 data)
                 end) = Returns (getIndex0 data))
      by (destruct data; try reflexivity; now elim Hd).
    rewrite E. cbn [bind].
    destruct (truthy (optProp "phonetic" (getIndex0 data))) eqn:Et.
    + cbn [bind]. split; [discriminate|].
      intros (_ & [H | [H _]]); [contradiction | discriminate].
    + pose proof (phoneticsText_throws (getIndex0 data) e) as Hp.
      destruct (phoneticsText typeErrorMessage (getIndex0 data)) as [v|e'];
        cbn [bind].
      * split; [discriminate|].
        intros (He & [H | [_ H]]); [contradiction|].
        pose proof (proj2 Hp (conj He H)). discriminate.
      * split.
        -- intros [= <-]. destruct (proj1 Hp eq_refl) as [He Hb].
           split; [exact He|]. right. split; [reflexivity | exact Hb].
        -- intros (He & [H | [_ H]]); [contradiction|].
           pose proof (proj2 Hp (conj He H)) as Heq. congruence.
Qed.

(** What the [try] block returns it has stored under the key; it carries
    the key as its word and no error marker but "not_found". *)
Lemma tryFetch_returns key outcome c d c' :
  tryFetch typeErrorMessage key outcome c = Returns (d, c') ->
  word d = key /\ c' = <[key := d]> c /\
  (error d = None \/ error d = Some "not_found").
Proof.
  unfold tryFetch. destruct outcome as [e|status body]; [discriminate|].
  destruct (negb (ok status)).
  - destruct (status =? 404); [|discriminate].
    intros [= <- <-]. repeat split. right. reflexivity.
  - destruct body as [e|data]; [discriminate|].
    unfold buildResult.
    destruct (first _ data) as [fe|e]; simpl; [|discriminate].
    destruct (truthy (optProp "phonetic" fe)); simpl.
    + intros [= <- <-]. repeat split. left. reflexivity.
    + destruct (phoneticsText _ fe); simpl; [|discriminate].
      intros [= <- <-]. repeat split. left. reflexivity.
Qed.

Lemma perform_well_keyed (s : Session) (op : Op) :
  WellKeyed (cache s) -> WellKeyed (cache (perform s op)).
Proof.
  intros Hs. destruct op as [rawWord|]; simpl;
    [|intros key d H; rewrite lookup_empty in H; discriminate].
  unfold fetchDefinition.
  destruct (normalizeWord rawWord) as [key|] eqn:Hn; [|exact Hs].
  destruct (cache s !! key) as [cached|] eqn:Hc; [exact Hs|]. cbv zeta.
  destruct (tryFetch _ _ _ _) as [[d c']|e] eqn:Et; simpl; [|exact Hs].
  destruct (tryFetch_returns _ _ _ _ _ Et) as (Hw & -> & He).
  intros k d' Hk. destruct (decide (key = k)) as [<-|Hne].
  - rewrite lookup_insert_eq in Hk. injection Hk as <-.
    split; [exact Hw|]. split; [|exact He].
    apply (normalizeWord_fixed rawWord key Hn).
  - rewrite lookup_insert_ne in Hk by exact Hne. exact (Hs k d' Hk).
Qed.

End Engine.

(** X4: whatever lookups and [clearCache] calls have been made, and
    whatever the network answered, every entry of the cache is stored under
    its own word, that word is a key [normalizeWord] leaves unchanged, and
    the entry carries no error marker other than "not_found": a failed
    request never leaves an entry behind. *)
Theorem cache_well_keyed
    (typeErrorMessage : string) (net : nat -> string -> FetchOutcome)
    (ops : list Op) :
  WellKeyed (cache (session typeErrorMessage net ops)).
Proof.
  unfold session.
  assert (H : forall s, WellKeyed (cache s) ->
                        WellKeyed (cache (fold_left
                                            (perform typeErrorMessage net)
                                            ops s))).
  { induction ops as [|op ops IH]; intros s Hs; [exact Hs|].
    simpl. apply IH, perform_well_keyed, Hs. }
  apply H. intros key d Hk. unfold fresh in Hk. simpl in Hk.
  rewrite lookup_empty in Hk. discriminate.
Qed.

(** X5: when nothing is cached for the key, the service answers with a
    success status and the body can be read, the entry built from the body
    is returned and stored under the key with no error marker, and the next
    lookup of a word with the same key returns that entry and sends no
    request. *)
Theorem successful_lookup_is_cached
    (typeErrorMessage : string) (net : nat -> string -> FetchOutcome)
    (w1 w2 key : string) (s : Session)
    (status : Z) (data : json) (d : DefinitionData) :
  normalizeWord w1 = Some key ->
  normalizeWord w2 = Some key ->
  cache s !! key = None ->
  net (length (calls s)) (lookupUrl key)
    = FetchResolves status (JsonResolves data) ->
  ok status = true ->
  buildResult typeErrorMessage key data = Returns d ->
  let lookup := fetchDefinition typeErrorMessage net in
  let s1 := {| cache := <[key := d]> (cache s);
               calls := calls s ++ [lookupUrl key] |} in
  lookup w1 s = (Returns d, s1) /\
  word d = key /\ error d = None /\
  lookup w2 s1 = (Returns d, s1).
Proof.
  intros Hw1 Hw2 Hc Hnet Hok Hb lookup s1.
  assert (Et : tryFetch typeErrorMessage key
                 (net (length (calls s)) (lookupUrl key)) (cache s)
               = Returns (d, <[key := d]> (cache s))).
  { rewrite Hnet. unfold tryFetch. rewrite Hok, Hb. reflexivity. }
  assert (E1 : lookup w1 s = (Returns d, s1)).
  { unfold lookup, fetchDefinition. rewrite Hw1, Hc. cbv zeta. rewrite Et.
    reflexivity. }
  split; [exact E1|].
  assert (Hd : word d = key /\ error d = None).
  { revert Hb. unfold buildResult.
    destruct (first _ data) as [fe|e]; simpl; [|discriminate].
    destruct (truthy (optProp "phonetic" fe)); simpl.
    - intros [= <-]. split; reflexivity.
    - destruct (phoneticsText _ fe); simpl; [|discriminate].
      intros [= <-]. split; reflexivity. }
  split; [apply Hd|]. split; [apply Hd|].
  apply (DictionaryFacts.lookup_hit _ _ _ key); [exact Hw2|].
  apply lookup_insert_eq.
Qed.

(** The service answers "Hello!" with the body for "hello": the entry has
    its first definition, its phonetic and its example, and the lookup of
    " hello " that follows returns the same entry from the cache. *)
Lemma successful_lookup_is_cached_witness :
  let net := fun (_ : nat) (_ : string) =>
               FetchResolves 200 (JsonResolves helloBody) in
  let d := {| word := "hello"; phonetic := Some (JStr "/h@'l@U/");
              definition := JStr "A greeting.";
              example := Some (JStr "hello there"); error := None |} in
  let s1 := {| cache := <["hello" := d]> ∅;
               calls := ["https://api.dictionaryapi.dev/api/v2/entries/en/hello"] |} in
  fetchDefinition "" net "Hello!" fresh = (Returns d, s1) /\
  fetchDefinition "" net " hello " s1 = (Returns d, s1).
Proof.
  intros net d s1.
  destruct (successful_lookup_is_cached "" net "Hello!" " hello " "hello"
              fresh 200 helloBody d eq_refl eq_refl eq_refl eq_refl eq_refl
              eq_refl) as (H1 & _ & _ & H2).
  split; [exact H1 | exact H2].
Defined.

(** X6: [clearCache] empties the cache and only that: the next lookup of
    any word that normalizes sends a request, whatever was cached before,
    and clearing an empty cache changes nothing. *)
Theorem clearCache_forgets
    (typeErrorMessage : string) (net : nat -> string -> FetchOutcome)
    (rawWord key : string) (s : Session) :
  normalizeWord rawWord = Some key ->
  (forall k, cache (clearCache s) !! k = None) /\
  calls (clearCache s) = calls s /\
  clearCache (clearCache s) = clearCache s /\
  calls (snd (fetchDefinition typeErrorMessage net rawWord (clearCache s)))
    = calls s ++ [lookupUrl key].
Proof.
  intros Hn. split; [intros k; apply lookup_empty|].
  split; [reflexivity|]. split; [reflexivity|].
  destruct (DictionaryFacts.lookup_miss typeErrorMessage net rawWord key
              (clearCache s) Hn (lookup_empty _)) as (d & c' & E & _).
  rewrite E. reflexivity.
Qed.

(** "hello" is cached as not found; after [clearCache] its lookup sends a
    second request. *)
Lemma clearCache_forgets_witness :
  let net := fun (_ : nat) (_ : string) =>
               FetchResolves 404 (JsonRejects NonError) in
  let s1 := snd (fetchDefinition "" net "hello" fresh) in
  calls (snd (fetchDefinition "" net "hello" s1)) = calls s1 /\
  calls (snd (fetchDefinition "" net "hello" (clearCache s1)))
    = calls s1 ++ ["https://api.dictionaryapi.dev/api/v2/entries/en/hello"].
Proof.
  intros net s1. split; [vm_compute; reflexivity|].
  apply (clearCache_forgets "" net "hello" "hello" s1 eq_refl).
Defined.

End DictionaryOpsFacts.

(** * From a click to the popup *)

Module SelectionFacts.
Import Viewer Selection Dictionary DictionaryOps.

Definition firstOf (pieces : list string) : string :=
  match List.filter (fun w => 0 <? JsString.len w) pieces with
  | w :: _ => w
  | [] => EmptyString
  end.

Lemma len_String c s : (0 <? JsString.len (String c s)) = true.
Proof.
  apply Z.ltb_lt. unfold JsString.len. simpl String.length. lia.
Qed.

(** The first piece of a split that starts outside a separator is the
    string up to its first separator. *)
Lemma splitFrom_head (s : string) :
  exists rest, splitFrom false s = untilSeparator s :: rest.
Proof.
  induction s as [|c s IH]; simpl; [eauto|].
  destruct (isSeparator c); [eauto|].
  destruct IH as [rest ->]. eauto.
Qed.

(** The first non-empty piece does not depend on where the split starts. *)
Lemma firstOf_flag (s : string) :
  firstOf (splitFrom true s) = firstOf (splitFrom false s).
Proof.
  destruct s as [|c s]; simpl; [reflexivity|].
  destruct (isSeparator c); reflexivity.
Qed.

Lemma firstOf_splitFrom (s : string) :
  firstOf (splitFrom false s) = untilSeparator (afterSeparators s).
Proof.
  induction s as [|c s IH]; [reflexivity|].
  simpl. destruct (isSeparator c) eqn:Ec.
  - rewrite <- IH, <- firstOf_flag. reflexivity.
  - destruct (splitFrom_head s) as [rest ->].
    unfold firstOf. cbn [List.filter]. rewrite len_String.
    simpl. rewrite Ec. reflexivity.
Qed.

(** [words[0] || ''] is the selected text after its leading separators, up
    to the next separator. *)
Lemma firstWordOf_spec (text : string) :
  firstWordOf text = untilSeparator (afterSeparators text).
Proof. apply firstOf_splitFrom. Qed.

Lemma untilSeparator_clean (s : string) :
  JsString.any isSeparator (untilSeparator s) = false.
Proof.
  induction s as [|c s IH]; [reflexivity|].
  simpl. destruct (isSeparator c) eqn:Ec; [reflexivity|].
  simpl. rewrite Ec. exact IH.
Qed.

(** A lookup either returns or rejects its word as invalid. *)
Lemma lookup_outcome typeErrorMessage net rawWord (s : Session) :
  (exists d, fst (fetchDefinition typeErrorMessage net rawWord s) = Returns d)
  \/ fst (fetchDefinition typeErrorMessage net rawWord s)
     = Throws (ErrorObj "Invalid word format").
Proof.
  unfold fetchDefinition.
  destruct (normalizeWord rawWord) as [key|]; [|right; reflexivity].
  left. destruct (cache s !! key) as [d|]; [eauto|]. cbv zeta.
  destruct (tryFetch _ _ _ _) as [[d c']|e]; simpl; eauto.
Qed.

(** On a cache whose entries sit under their own words, a lookup of a word
    that normalizes returns an entry for its key. *)
Lemma lookup_word typeErrorMessage net rawWord key (s : Session) :
  WellKeyed (cache s) ->
  normalizeWord rawWord = Some key ->
  exists d,
    fst (fetchDefinition typeErrorMessage net rawWord s) = Returns d /\
    word d = key.
Proof.
  intros Hs Hn. unfold fetchDefinition. rewrite Hn.
  destruct (cache s !! key) as [d|] eqn:Hc.
  - exists d. split; [reflexivity|]. apply (Hs key d Hc).
  - cbv zeta.
    destruct (tryFetch _ _ _ _) as [[d c']|e] eqn:Et; simpl.
    + exists d. split; [reflexivity|].
      apply (DictionaryOpsFacts.tryFetch_returns _ _ _ _ _ _ Et).
    + eexists. split; reflexivity.
Qed.

Lemma session_keys typeErrorMessage net (ops : list Op) :
  WellKeyed (cache (session typeErrorMessage net ops)).
Proof.
  unfold session.
  assert (Hfresh : WellKeyed (cache fresh))
    by (intros key d H; simpl in H; rewrite lookup_empty in H;
        discriminate).
  revert Hfresh. generalize fresh.
  induction ops as [|op ops IH]; intros s Hs; [exact Hs|].
  simpl. apply IH, DictionaryOpsFacts.perform_well_keyed, Hs.
Qed.

(** What a gesture that reaches [onWordClick] went through. *)
Lemma gesture_inv (v : State) (g : Gesture) w px py :
  handleTextLayerGesture v g = Some (w, px, py) ->
  renderingPage v = false /\ hasTextLayer v = true /\
  point g = Some (px, py) /\
  exists text,
    selectedTextOf g = Some text /\
    normalizeWord (firstWordOf text) = Some w.
Proof.
  unfold handleTextLayerGesture.
  destruct (renderingPage v); [discriminate|].
  destruct (hasTextLayer v); [|discriminate]. simpl.
  destruct (selectedTextOf g) as [text|]; [|discriminate].
  destruct (normalizeWord (firstWordOf text)) as [n|] eqn:En;
    [|discriminate].
  destruct (point g) as [[qx qy]|]; [|discriminate].
  intros [= <- <- <-]. repeat split. eauto.
Qed.

Lemma selectedTextOf_nonempty (g : Gesture) text :
  selectedTextOf g = Some text -> text <> EmptyString.
Proof.
  unfold selectedTextOf.
  destruct (selection g) as [[rangeCount t]|]; [|discriminate].
  destruct (rangeCount =? 0)%nat; [discriminate|]. cbv zeta.
  match goal with
  | |- (if JsString.isEmpty ?u then _ else _) = _ -> _ =>
      destruct u; simpl; [discriminate|]
  end.
  intros [= <-]. discriminate.
Qed.

(** X8: when a click or a touch on the text layer calls [onWordClick], no
    page was being rendered and the text layer was on; the word handed over
    is the normalized form of the selected text (or, with nothing selected,
    of the target's text) after its leading punctuation and white space and
    up to the next punctuation mark or white space; it consists of at least
    two letters a-z, [normalizeWord] leaves it unchanged, and
    [fetchDefinition] returns an entry for it and never rejects it,
    whatever the cache holds and whatever the network answers. *)
Theorem gesture_hands_over_lookup_key
    (v : State) (g : Gesture) (w : string) (px py : float) :
  handleTextLayerGesture v g = Some (w, px, py) ->
  renderingPage v = false /\ hasTextLayer v = true /\
  point g = Some (px, py) /\
  (exists text,
      selectedTextOf g = Some text /\ text <> EmptyString /\
      JsString.any isSeparator (untilSeparator (afterSeparators text))
        = false /\
      normalizeWord (untilSeparator (afterSeparators text)) = Some w) /\
  JsString.all JsString.isLower w = true /\
  2 <= JsString.len w /\
  normalizeWord w = Some w /\
  forall typeErrorMessage net s,
  exists d, fst (fetchDefinition typeErrorMessage net w s) = Returns d.
Proof.
  intros H.
  destruct (gesture_inv v g w px py H) as (Hr & Ht & Hp & text & Hs & Hn).
  rewrite firstWordOf_spec in Hn.
  destruct (DictionaryOpsFacts.normalizeWord_fixed _ _ Hn)
    as (Hall & Hlen & Hfix).
  repeat (split; [assumption|]).
  split.
  { exists text. split; [exact Hs|].
    split; [exact (selectedTextOf_nonempty g text Hs)|].
    split; [apply untilSeparator_clean | exact Hn]. }
  repeat (split; [assumption|]).
  intros tem net s.
  destruct (lookup_outcome tem net w s) as [Hd|Hthrow]; [exact Hd|].
  exfalso. revert Hthrow. unfold fetchDefinition. rewrite Hfix.
  destruct (cache s !! w); [discriminate|]. cbv zeta.
  destruct (tryFetch _ _ _ _) as [[d c']|e]; discriminate.
Qed.

Lemma gesture_hands_over_lookup_key_witness :
  let g := {| selection := Some (1%nat, " (don't) stop ");
              targetText := None;
              point := Some (120%float, 240%float) |} in
  handleTextLayerGesture loaded g = Some ("don", 120%float, 240%float) /\
  forall typeErrorMessage net s,
  exists d, fst (fetchDefinition typeErrorMessage net "don" s) = Returns d.
Proof.
  intros g.
  assert (H : handleTextLayerGesture loaded g
              = Some ("don", 120%float, 240%float))
    by (vm_compute; reflexivity).
  split; [exact H|].
  apply (gesture_hands_over_lookup_key loaded g "don" 120 240 H).
Defined.

End SelectionFacts.

(** * The popup *)

Module AppFacts.
Import Dictionary DictionaryOps Selection App.

(** The popup shows no error, and is visible while it is loading. *)
Definition Calm (p : PopupState) : Prop :=
  App.error p = None /\ (App.loading p = true -> visible p = true).

Lemma hidden_calm : Calm hidden.
Proof. split; [reflexivity | discriminate]. Qed.

Lemma step_calm (p : PopupState) (e : Event) :
  Genuine e -> Calm p -> Calm (step p e).
Proof.
  intros He [Herr Hload].
  destruct e as [|clicked px py|c|]; simpl;
    try apply hidden_calm.
  - split; reflexivity.
  - destruct He as (tem & net & rawWord & s & ->).
    destruct (SelectionFacts.lookup_outcome tem net rawWord s)
      as [[d ->] | ->]; simpl.
    + split; [exact Herr | discriminate].
    + apply hidden_calm.
Qed.

(** X9: as long as the lookups that settle are calls of [fetchDefinition],
    no sequence of file selections, word clicks, settled lookups and
    closings ever sets the popup's [error], and the popup is never loading
    while hidden: [fetchDefinition] rejects only an invalid word, and that
    rejection hides the popup. *)
Theorem popup_error_stays_null (events : list Event) (p : PopupState) :
  Forall Genuine events ->
  App.error p = None ->
  (App.loading p = true -> visible p = true) ->
  App.error (run p events) = None /\
  (App.loading (run p events) = true -> visible (run p events) = true).
Proof.
  intros Hev Herr Hload.
  assert (Hp : Calm p) by (split; assumption). clear Herr Hload.
  revert p Hp. unfold run.
  induction Hev as [|e events He _ IH]; intros p Hp; [exact Hp|].
  simpl. apply IH, step_calm; assumption.
Qed.

Lemma popup_error_stays_null_witness :
  let net := fun (_ : nat) (_ : string) => FetchRejects NonError in
  let events :=
    [WordClicked "hello" 100%float 200%float;
     DefinitionSettled (fst (fetchDefinition "" net "hello" fresh));
     WordClicked "!" 5%float 6%float;
     DefinitionSettled (fst (fetchDefinition "" net "!" fresh));
     PopupClosed] in
  App.error (run hidden events) = None /\
  (App.loading (run hidden events) = true ->
   visible (run hidden events) = true).
Proof.
  intros net events.
  apply (popup_error_stays_null events hidden).
  - assert (G : forall rawWord,
               FromLookup (fst (fetchDefinition "" net rawWord fresh)))
      by (intros rawWord; exists "", net, rawWord, fresh; reflexivity).
    unfold events.
    constructor; [exact I|]. constructor; [apply G|].
    constructor; [exact I|]. constructor; [apply G|].
    constructor; [exact I|]. constructor.
  - reflexivity.
  - discriminate.
Defined.

(** X10: a click or touch on the text layer that reaches [onWordClick],
    followed by the settling of its lookup with no other popup event in
    between, leaves the popup visible 16 pixels right of and below the
    pointer, not loading, without error, and showing an entry whose word is
    the word clicked, whatever was looked up or cleared before and whatever
    the network answers: the branch that hides the popup for an invalid
    word is never taken for words coming from the viewer. *)
Theorem clicked_word_gets_its_entry
    (typeErrorMessage : string) (net : nat -> string -> FetchOutcome)
    (ops : list Op) (v : Viewer.State) (g : Gesture)
    (w : string) (px py : float) (p : PopupState) :
  handleTextLayerGesture v g = Some (w, px, py) ->
  let s := session typeErrorMessage net ops in
  let c := fst (fetchDefinition typeErrorMessage net w s) in
  let p' := run p [WordClicked w px py; DefinitionSettled c] in
  visible p' = true /\ App.loading p' = false /\ App.error p' = None /\
  App.word p' = w /\ x p' = (px + 16)%float /\ y p' = (py + 16)%float /\
  exists d, data p' = Some d /\ Dictionary.word d = w.
Proof.
  intros H.
  destruct (SelectionFacts.gesture_inv v g w px py H)
    as (_ & _ & _ & text & _ & Hn).
  destruct (DictionaryOpsFacts.normalizeWord_fixed _ _ Hn)
    as (_ & _ & Hfix).
  destruct (SelectionFacts.lookup_word typeErrorMessage net w w
              (session typeErrorMessage net ops)
              (SelectionFacts.session_keys typeErrorMessage net ops) Hfix)
    as (d & Hd & Hw).
  cbv zeta. rewrite Hd. simpl.
  repeat (split; [reflexivity|]). exists d. split; [reflexivity | exact Hw].
Qed.

Lemma clicked_word_gets_its_entry_witness :
  let net := fun (_ : nat) (_ : string) =>
               FetchResolves 200 (JsonResolves helloBody) in
  let c := fst (fetchDefinition "" net "hello" fresh) in
  let p' := run hidden [WordClicked "hello" 120%float 240%float;
                        DefinitionSettled c] in
  visible p' = true /\ App.loading p' = false /\ App.error p' = None /\
  App.word p' = "hello" /\
  x p' = (120 + 16)%float /\ y p' = (240 + 16)%float /\
  exists d, data p' = Some d /\ Dictionary.word d = "hello".
Proof.
  intros net.
  pose (g := {| selection := Some (1%nat, "Hello, world");
                targetText := None;
                point := Some (120%float, 240%float) |}).
  assert (H : handleTextLayerGesture Viewer.loaded g
              = Some ("hello", 120%float, 240%float))
    by (vm_compute; reflexivity).
  exact (clicked_word_gets_its_entry "" net [] Viewer.loaded g "hello"
           120 240 hidden H).
Defined.

End AppFacts.

(** * The page controls, and what a loaded document shows *)

Module NavigationFacts.
Import Viewer Navigation Loading.

Section Facts.

Variable throws : Effect -> bool.
Variable env : Env.
Variable referenceErrorMessage : string.

Local Abbreviation resumeLoad := (resumeLoad env referenceErrorMessage).
Local Abbreviation happen := (happen throws env referenceErrorMessage).
Local Abbreviation live := (live throws env referenceErrorMessage).

(** A document held comes with an error. *)
Definition InError (m : Mounted) : Prop :=
  pdfDocRef (state (sys m)) <> None -> error (state (sys m)) <> None.

Lemma fileEffect_no_document f v :
  pdfDocRef (fst (fileEffect throws f v)) = None.
Proof.
  destruct f as [f|]; simpl.
  - unfold loadPdf, failed. cbv zeta.
    rewrite (TeardownFacts.cleanupDoc_eval throws),
            LifecycleFacts.caught_eq.
    destruct (negb (includes (type f) "pdf")); reflexivity.
  - unfold noFile. rewrite (TeardownFacts.cleanupDoc_eval throws).
    reflexivity.
Qed.

(** With the document, [loadPdf] ends in its [catch] block. *)
Lemma document_arrives doc pages v :
  canvas env = true -> context2d env = true ->
  resumeLoad AtLoadDocument
    (DocumentSettled (Dictionary.Returns (doc, pages))) v
  = Some (set_loading false
            (set_error
               (Some (LifecycleFacts.errorOf
                        (Dictionary.ErrorObj referenceErrorMessage)))
               (set_currentPage 1
                  (set_numPages pages (set_pdfDocRef (Some doc) v)))),
          Done).
Proof.
  intros Hc Hx. unfold Loading.resumeLoad. cbv zeta.
  rewrite (LifecycleFacts.renderPage_throws env referenceErrorMessage 1
             (set_currentPage 1
                (set_numPages pages (set_pdfDocRef (Some doc) v)))
             doc Hc Hx eq_refl).
  unfold failed. rewrite LifecycleFacts.caught_eq. reflexivity.
Qed.

Lemma resumeLoad_in_error p r v v' status :
  canvas env = true -> context2d env = true ->
  resumeLoad p r v = Some (v', status) ->
  (pdfDocRef v <> None -> error v <> None) ->
  pdfDocRef v' <> None -> error v' <> None.
Proof.
  intros Hc Hx.
  destruct p, r as [[]|[[doc pages]|e]]; try discriminate.
  - intros [= <- <-] H. exact H.
  - unfold Loading.resumeLoad, failed. rewrite LifecycleFacts.caught_eq.
    intros [= <- <-] _ _. discriminate.
  - rewrite (document_arrives doc pages v Hc Hx).
    intros [= <- <-] _ _. discriminate.
  - unfold Loading.resumeLoad, failed. rewrite LifecycleFacts.caught_eq.
    intros [= <- <-] _ _. discriminate.
Qed.

Lemma happen_in_error m h :
  canvas env = true -> context2d env = true ->
  LifecycleFacts.Unrendered (state (sys m)) ->
  InError m -> InError (happen m h).
Proof.
  intros Hc Hx Hu H. destruct h as [i|f|i r].
  - rewrite (LifecycleFacts.does_inert throws env referenceErrorMessage
               m i Hu). exact H.
  - unfold InError. simpl. rewrite fileEffect_no_document.
    intros Hd. now elim Hd.
  - unfold InError. simpl.
    destruct (loads m !! i) as [p|]; [|exact H].
    destruct (resumeLoad p r (state (sys m))) as [[v status]|] eqn:E;
      [|exact H].
    simpl. exact (resumeLoad_in_error _ _ _ _ _ Hc Hx E H).
Qed.

End Facts.

(** X11: whatever file the component is mounted with and whatever happens
    to it, the current page is 1, and a click on Previous or Next, a key
    or a resize leaves the component exactly as it is: the buttons are not
    there and the key and resize listeners are not set up, since nothing is
    ever rendered.  Where the handlers would ask for a page, it is the
    page next to the current one: the one after it, not beyond
    [numPages], or the one before it, not below 1. *)
Theorem page_never_changes
    (throws : Effect -> bool) (env : Env) (referenceErrorMessage : string)
    (f : option File) (happenings : list Happening) (i : Input) :
  let m := live throws env referenceErrorMessage (mount throws f)
             happenings in
  currentPage (state (sys m)) = 1 /\
  happen throws env referenceErrorMessage m (Does i) = m /\
  (forall w n,
      handleNextPage w = Some n \/ nextClicked w = Some n \/
      handleKeyDown ArrowRight w = Some n ->
      n = currentPage w + 1 /\ n <= numPages w) /\
  (forall w n,
      handlePrevPage w = Some n \/ prevClicked w = Some n \/
      handleKeyDown ArrowLeft w = Some n ->
      n = currentPage w - 1 /\ 1 <= n) /\
  (forall w, handleKeyDown OtherKey w = None).
Proof.
  cbv zeta.
  pose proof (LifecycleFacts.reached_unrendered throws env
                referenceErrorMessage f happenings) as Hu.
  split; [apply Hu|].
  split; [apply LifecycleFacts.does_inert, Hu|].
  assert (Hnext : forall w n, handleNextPage w = Some n ->
                              n = currentPage w + 1 /\ n <= numPages w).
  { intros w n. unfold handleNextPage.
    destruct (renderingPage w); [discriminate|]. simpl.
    destruct (Z.ltb_spec (currentPage w) (numPages w)); [|discriminate].
    intros [= <-]. split; [reflexivity | lia]. }
  assert (Hprev : forall w n, handlePrevPage w = Some n ->
                              n = currentPage w - 1 /\ 1 <= n).
  { intros w n. unfold handlePrevPage.
    destruct (renderingPage w); [discriminate|]. simpl.
    destruct (Z.ltb_spec 1 (currentPage w)); [|discriminate].
    intros [= <-]. split; [reflexivity | lia]. }
  split; [|split].
  - intros w n [H | [H | H]]; [exact (Hnext w n H)| |].
    + unfold nextClicked in H. destruct (_ && _); [|discriminate].
      exact (Hnext w n H).
    + unfold handleKeyDown in H. destruct (_ || _); [discriminate|].
      destruct (renderingPage w); [discriminate|].
      destruct (_ <? _); [|discriminate]. exact (Hnext w n H).
  - intros w n [H | [H | H]]; [exact (Hprev w n H)| |].
    + unfold prevClicked in H. destruct (_ && _); [|discriminate].
      exact (Hprev w n H).
    + unfold handleKeyDown in H. destruct (_ || _); [discriminate|].
      destruct (renderingPage w); [discriminate|].
      destruct (_ <? _); [|discriminate]. exact (Hprev w n H).
  - intros w. unfold handleKeyDown. destruct (_ || _); [reflexivity|].
    destruct (renderingPage w); reflexivity.
Qed.

(** X12: where the page gives a canvas with a 2d context, a document that
    arrives always ends [loadPdf] in its [catch] block, with the message of
    the [ReferenceError] as the error, [loading] off, page 1 of the
    document's pages and nothing rendered; and in every state a run
    reaches, a document held comes with an error set and with [rendered]
    false, so that its canvas is not shown. *)
Theorem loaded_document_is_in_error
    (throws : Effect -> bool) (env : Env) (referenceErrorMessage : string)
    (f : option File) (happenings : list Happening) :
  canvas env = true -> context2d env = true ->
  let v := state (sys (live throws env referenceErrorMessage
                         (mount throws f) happenings)) in
  (forall doc pages w,
      resumeLoad env referenceErrorMessage AtLoadDocument
        (DocumentSettled (Dictionary.Returns (doc, pages))) w
      = Some (set_loading false
                (set_error
                   (Some (if includes referenceErrorMessage
                               "PDF.js library failed"
                          then cdnMessage else referenceErrorMessage))
                   (set_currentPage 1
                      (set_numPages pages
                         (set_pdfDocRef (Some doc) w)))),
              Done)) /\
  rendered v = false /\
  (pdfDocRef v <> None -> error v <> None).
Proof.
  intros Hc Hx. cbv zeta.
  split; [intros doc pages w; apply document_arrives; assumption|].
  split; [apply LifecycleFacts.reached_unrendered|].
  apply (LifecycleFacts.reached_induction throws env referenceErrorMessage
           (InError)).
  - unfold InError, mount. cbv zeta. simpl.
    rewrite fileEffect_no_document. intros Hd. now elim Hd.
  - intros m h Hu H. apply happen_in_error; assumption.
Qed.

Lemma loaded_document_is_in_error_witness :
  let v := state (sys (opened "localToken is not defined")) in
  pdfDocRef v = Some 7%nat /\ rendered v = false /\ error v <> None.
Proof.
  intros v.
  destruct (loaded_document_is_in_error (fun _ => false) browser
              "localToken is not defined" (Some pdf)
              [LoadSettles 0 (ReadSettled true);
               LoadSettles 0
                 (DocumentSettled (Dictionary.Returns (7%nat, 3)))]
              eq_refl eq_refl) as (_ & Hr & He).
  split; [reflexivity|]. split; [exact Hr|].
  apply He. vm_compute. discriminate.
Defined.

End NavigationFacts.

(** * Loading a file *)

Module LoadingFacts.
Import Viewer Navigation Loading.

Section Facts.

Variable throws : Effect -> bool.
Variable env : Env.
Variable referenceErrorMessage : string.

Local Abbreviation resumeLoad := (resumeLoad env referenceErrorMessage).
Local Abbreviation happen := (happen throws env referenceErrorMessage).
Local Abbreviation live := (live throws env referenceErrorMessage).

(** Nothing in [loadPdf] touches the text layer's flag. *)
Lemma resumeLoad_layer p r v v' status :
  resumeLoad p r v = Some (v', status) ->
  hasTextLayer v' = hasTextLayer v.
Proof.
  unfold Loading.resumeLoad, failed.
  destruct p, r as [[]|[[doc pages]|e]]; try discriminate;
    try rewrite LifecycleFacts.caught_eq.
  - intros [= <- <-]. reflexivity.
  - intros [= <- <-]. reflexivity.
  - destruct (renderPage _ _ _ _) as [b|e];
      try rewrite LifecycleFacts.caught_eq; intros [= <- <-]; reflexivity.
  - intros [= <- <-]. reflexivity.
Qed.

Lemma fileEffect_layer f v :
  hasTextLayer v = false ->
  hasTextLayer (fst (fileEffect throws f v)) = false.
Proof.
  intros H. destruct f as [f|]; simpl; [|reflexivity].
  unfold loadPdf, failed. cbv zeta.
  rewrite (TeardownFacts.cleanupDoc_eval throws), LifecycleFacts.caught_eq.
  destruct (negb (includes (type f) "pdf")); exact H.
Qed.

Lemma effectCleanup_layer previous v :
  hasTextLayer (effectCleanup throws previous v) = hasTextLayer v.
Proof.
  destruct previous; simpl; [|reflexivity].
  rewrite (TeardownFacts.cleanupDoc_eval throws). reflexivity.
Qed.

Lemma happen_layer m h :
  LifecycleFacts.Unrendered (state (sys m)) ->
  hasTextLayer (state (sys m)) = false ->
  hasTextLayer (state (sys (happen m h))) = false.
Proof.
  intros Hu H. destruct h as [i|f|i r].
  - rewrite (LifecycleFacts.does_inert throws env referenceErrorMessage
               m i Hu). exact H.
  - simpl. apply fileEffect_layer. rewrite effectCleanup_layer. exact H.
  - simpl. destruct (loads m !! i) as [p|]; [|exact H].
    destruct (resumeLoad p r (state (sys m))) as [[v status]|] eqn:E;
      [|exact H].
    simpl. rewrite (resumeLoad_layer _ _ _ _ _ E). exact H.
Qed.

(** While no [loadPdf] call is in flight, [loading] is false. *)
Definition Settled (m : Mounted) : Prop :=
  loads m = [] -> loading (state (sys m)) = false.

Lemma resumeLoad_done p r v v' :
  resumeLoad p r v = Some (v', Done) -> loading v' = false.
Proof.
  unfold Loading.resumeLoad, failed.
  destruct p, r as [[]|[[doc pages]|e]]; try discriminate;
    try (intros [= <-]; reflexivity).
  destruct (renderPage _ _ _ _); intros [= <-]; reflexivity.
Qed.

Lemma fileEffect_loading f v :
  match snd (fileEffect throws f v) with
  | Loading _ => True
  | Done =>
      loading (fst (fileEffect throws f v)) =
        match f with Some _ => false | None => loading v end
  end.
Proof.
  destruct f as [f|]; simpl.
  - unfold loadPdf. cbv zeta.
    destruct (negb (includes (type f) "pdf")); simpl; [reflexivity | exact I].
  - rewrite (TeardownFacts.cleanupDoc_eval throws). reflexivity.
Qed.

Lemma effectCleanup_loading previous v :
  loading (effectCleanup throws previous v) = loading v.
Proof.
  destruct previous; simpl; [|reflexivity].
  rewrite (TeardownFacts.cleanupDoc_eval throws). reflexivity.
Qed.

Lemma happen_settled m h :
  LifecycleFacts.Unrendered (state (sys m)) ->
  Settled m -> Settled (happen m h).
Proof.
  unfold Settled. intros Hu H. destruct h as [i|f|i r].
  - rewrite (LifecycleFacts.does_inert throws env referenceErrorMessage
               m i Hu). exact H.
  - simpl.
    pose proof (fileEffect_loading f
                  (effectCleanup throws (file m) (state (sys m)))) as Hf.
    destruct (snd (fileEffect _ _ _)) as [p|].
    + intros E. destruct (loads m); discriminate.
    + rewrite app_nil_r. intros E. rewrite Hf.
      destruct f; [reflexivity|].
      rewrite effectCleanup_loading. exact (H E).
  - simpl. destruct (loads m !! i) as [p|] eqn:Ei; [|exact H].
    destruct (resumeLoad p r (state (sys m)))
      as [[v [q|]]|] eqn:E; [| |exact H]; simpl.
    + intros E0. apply (f_equal length) in E0.
      rewrite length_insert in E0.
      apply lookup_lt_Some in Ei. simpl in E0. lia.
    + intros _. exact (resumeLoad_done _ _ _ _ E).
Qed.

Lemma mount_settled f : Settled (mount throws f).
Proof.
  unfold Settled, mount. cbv zeta. simpl.
  pose proof (fileEffect_loading f initial) as Hf.
  destruct (snd (fileEffect _ _ _)); [discriminate|].
  intros _. rewrite Hf. destruct f; reflexivity.
Qed.

End Facts.

(** X13: in a viewer mounted without a file, as the application mounts
    it, the effect on [file] turns [hasTextLayer] off and nothing ever
    turns it on again, whatever files are given afterwards, however their
    loading goes and whatever the user does: [renderTextLayer], the one
    place that sets it, is called only by [renderPage] behind the read that
    throws.  So no click or touch ever reaches [onWordClick]. *)
Theorem text_layer_never_turns_on
    (throws : Effect -> bool) (env : Env) (referenceErrorMessage : string)
    (happenings : list Happening) (g : Selection.Gesture) :
  let m := live throws env referenceErrorMessage (mount throws None)
             happenings in
  hasTextLayer (state (sys m)) = false /\
  Selection.handleTextLayerGesture (state (sys m)) g = None.
Proof.
  cbv zeta.
  assert (Hl : hasTextLayer
                 (state (sys (live throws env referenceErrorMessage
                                (mount throws None) happenings))) = false).
  { apply (LifecycleFacts.reached_induction throws env
             referenceErrorMessage
             (fun m => hasTextLayer (state (sys m)) = false));
      [reflexivity|].
    intros m h Hu H. apply happen_layer; assumption. }
  split; [exact Hl|].
  unfold Selection.handleTextLayerGesture. rewrite Hl.
  destruct (renderingPage _); reflexivity.
Qed.

(** X14: however the component is mounted and whatever happens to it,
    whenever no [loadPdf] call is in flight [loading] is false: every way
    out of [loadPdf], the wrong file type, a failed read, a rejected
    document, the first [renderPage] returning or throwing, turns it off,
    and nothing else turns it on. *)
Theorem loading_ends_with_the_loads
    (throws : Effect -> bool) (env : Env) (referenceErrorMessage : string)
    (f : option File) (happenings : list Happening) :
  let m := live throws env referenceErrorMessage (mount throws f)
             happenings in
  loads m = [] -> loading (state (sys m)) = false.
Proof.
  cbv zeta.
  apply (LifecycleFacts.reached_induction throws env referenceErrorMessage
           Settled); [apply mount_settled|].
  intros m h Hu H. apply happen_settled; assumption.
Qed.

Lemma loading_ends_with_the_loads_witness :
  let f := Some {| type := "application/pdf" |} in
  let m := live (fun _ => false) browser "localToken is not defined"
             (mount (fun _ => false) f)
             [LoadSettles 0 (ReadSettled true);
              LoadSettles 0 (DocumentSettled
                               (Dictionary.Throws Dictionary.NonError))] in
  loads m = [] /\ loading (state (sys m)) = false.
Proof.
  intros f m.
  assert (H : loads m = []) by (vm_compute; reflexivity).
  split; [exact H|].
  exact (loading_ends_with_the_loads (fun _ => false) browser
           "localToken is not defined" f _ H).
Defined.

(** X18: when the [file] prop changes while a file is set, [cleanupDoc]
    runs twice, in the effect's cleanup and again in [loadPdf] or in the
    branch for no file, but the render task is cancelled, the page cleaned
    up and the document destroyed once, in this order; the three references
    end null and [rendered] false.  No render is started.  A new file whose
    type mentions "pdf" starts to load with [loading] on and [error]
    cleared; another type ends at once with [loading] off and the message
    for an invalid type; no file resets the page to 1 of 0 with the text
    layer off. *)
Theorem file_change_tears_down_once
    (throws : Effect -> bool) (env : Env) (referenceErrorMessage : string)
    (m : Mounted) (previous : File) (next : option File) :
  file m = Some previous ->
  let v := state (sys m) in
  let m' := happen throws env referenceErrorMessage m (FileChanges next) in
  let v' := state (sys m') in
  effects v' = effects v ++ teardownCalls v /\
  renderTaskRef v' = None /\ pdfPageRef v' = None /\ pdfDocRef v' = None /\
  rendered v' = false /\
  started (sys m') = started (sys m) /\
  file m' = next /\
  match next with
  | Some f =>
      if includes (type f) "pdf" then
        loading v' = true /\ error v' = None /\
        loads m' = loads m ++ [AtRead]
      else
        loading v' = false /\
        error v' = Some "Invalid file type. Please upload a PDF file." /\
        loads m' = loads m
  | None =>
      error v' = None /\ currentPage v' = 1 /\ numPages v' = 0 /\
      hasTextLayer v' = false /\ noTextForPage v' = false /\
      loading v' = loading v /\ loads m' = loads m
  end.
Proof.
  intros Hf. cbv zeta. unfold happen, effectCleanup, fileEffect.
  rewrite Hf. destruct next as [f|].
  - unfold loadPdf. cbv zeta.
    rewrite !(TeardownFacts.cleanupDoc_eval throws).
    destruct (includes (type f) "pdf") eqn:Ei; cbn [negb snd fst];
      unfold tornDown, teardownCalls; simpl;
      rewrite ?app_nil_r; repeat split; reflexivity.
  - unfold noFile. rewrite !(TeardownFacts.cleanupDoc_eval throws).
    unfold tornDown, teardownCalls; simpl.
    rewrite ?app_nil_r; repeat split; reflexivity.
Qed.

Lemma file_change_tears_down_once_witness :
  let m := {| sys := idle;
              file := Some {| type := "application/pdf" |};
              loads := [] |} in
  let m' := happen (fun _ => false) browser "localToken is not defined" m
              (FileChanges (Some {| type := "image/png" |})) in
  effects (state (sys m')) = [CleanupPage 10%nat; Destroy 7%nat] /\
  pdfDocRef (state (sys m')) = None /\
  error (state (sys m'))
    = Some "Invalid file type. Please upload a PDF file.".
Proof.
  intros m m'.
  destruct (file_change_tears_down_once (fun _ => false) browser
              "localToken is not defined" m
              {| type := "application/pdf" |}
              (Some {| type := "image/png" |}) eq_refl)
    as (He & _ & _ & Hd & _ & _ & _ & Hn).
  split; [exact He|]. split; [exact Hd|]. apply Hn.
Defined.

End LoadingFacts.

(** * Edge cases of the extractor and of the hit test *)

Module EdgeFacts.
Import Js Extractor.

(** ** Not-a-number *)

Definition NaN (a : float) : Prop := Prim2SF a = SpecFloat.S754_nan.

Lemma is_nan_NaN (a : float) : PrimFloat.is_nan a = true -> NaN a.
Proof.
  unfold PrimFloat.is_nan, NaN. rewrite FloatAxioms.eqb_spec.
  unfold SpecFloat.SFeqb.
  destruct (Prim2SF a) as [s|s| |s m e]; simpl; try destruct s;
    try discriminate; try reflexivity;
    rewrite Z.compare_refl, Pos.compare_cont_refl; discriminate.
Qed.

Lemma sub_NaN (a b : float) : NaN a \/ NaN b -> NaN (a - b).
Proof.
  unfold NaN. rewrite FloatAxioms.sub_spec. unfold SF64sub.
  intros [-> | ->]; [reflexivity|].
  destruct (Prim2SF a) as [[]|[]| |]; reflexivity.
Qed.

Lemma add_NaN (a b : float) : NaN a \/ NaN b -> NaN (a + b).
Proof.
  unfold NaN. rewrite FloatAxioms.add_spec. unfold SF64add.
  intros [-> | ->]; [reflexivity|].
  destruct (Prim2SF a) as [[]|[]| |]; reflexivity.
Qed.

Lemma mul_NaN (a b : float) : NaN a \/ NaN b -> NaN (a * b).
Proof.
  unfold NaN. rewrite FloatAxioms.mul_spec. unfold SF64mul.
  intros [-> | ->]; [reflexivity|].
  destruct (Prim2SF a) as [[]|[]| |]; reflexivity.
Qed.

Lemma sqrt_NaN (a : float) : NaN a -> NaN (PrimFloat.sqrt a).
Proof.
  unfold NaN. rewrite FloatAxioms.sqrt_spec. intros ->. reflexivity.
Qed.

Lemma ltb_NaN (a b : float) : NaN a \/ NaN b -> (a <? b)%float = false.
Proof.
  unfold NaN. rewrite FloatAxioms.ltb_spec. unfold SpecFloat.SFltb.
  intros [-> | ->]; [reflexivity|].
  destruct (Prim2SF a); reflexivity.
Qed.

Lemma leb_NaN (a b : float) : NaN a \/ NaN b -> (a <=? b)%float = false.
Proof.
  unfold NaN. rewrite FloatAxioms.leb_spec. unfold SpecFloat.SFleb.
  intros [-> | ->]; [reflexivity|].
  destruct (Prim2SF a); reflexivity.
Qed.

Lemma inside_NaN (w : WordRect) (px py threshold : float) :
  NaN px \/ NaN py \/ NaN threshold -> inside w px py threshold = false.
Proof.
  unfold inside. intros [H | [H | H]].
  - rewrite (leb_NaN _ px (or_intror H)). reflexivity.
  - rewrite (leb_NaN _ py (or_intror H)).
    rewrite andb_false_r. reflexivity.
  - rewrite (leb_NaN (x w - threshold) px
               (or_introl (sub_NaN _ _ (or_intror H)))).
    reflexivity.
Qed.

Lemma distanceTo_NaN (w : WordRect) (px py : float) :
  NaN px \/ NaN py -> NaN (distanceTo w px py).
Proof.
  unfold distanceTo, Math_sqrt. cbv zeta. intros H.
  apply sqrt_NaN, add_NaN.
  destruct H as [H | H]; [left | right];
    apply mul_NaN; left; apply sub_NaN; left; exact H.
Qed.

Lemma nearestFrom_none (words : list WordRect) (px py : float) :
  forall nearest minDistance,
    (forall w, (distanceTo w px py <? minDistance)%float = false) ->
    nearestFrom words px py nearest minDistance = nearest.
Proof.
  induction words as [|w words IH]; intros nearest minDistance H;
    [reflexivity|].
  simpl. rewrite (H w). apply IH, H.
Qed.

Lemma firstInside_NaN (words : list WordRect) (px py threshold : float) :
  NaN px \/ NaN py \/ NaN threshold ->
  firstInside words px py threshold = None.
Proof.
  intros H. induction words as [|w words IH]; [reflexivity|].
  simpl. rewrite (inside_NaN w _ _ _ H). exact IH.
Qed.

(** ** The rectangles the extractor pushes *)

(** [w] was pushed for a token that holds a kept character. *)
Definition Pushed (w : WordRect) : Prop :=
  exists viewport t charWidth token index,
    w = rectOf viewport t charWidth token index /\
    JsString.any keptChar token = true.

Lemma loop_pushed viewport s t charWidth :
  forall tokens cur,
    Forall Pushed (pushed cur) ->
    Forall Pushed
      (pushed (fold_left (wordStep viewport s t charWidth) tokens cur)).
Proof.
  induction tokens as [|token tokens IH]; intros cur H; [exact H|].
  simpl. apply IH. unfold wordStep.
  destruct (JsString.len (cleanWordOf token) =? 0) eqn:E; [exact H|].
  destruct (_ =? -1); [exact H|]. simpl.
  apply Forall_app. split; [exact H|].
  constructor; [|constructor].
  exists viewport, t, charWidth, token, (indexOf s token (charOffset cur)).
  split; [reflexivity|].
  unfold cleanWordOf in E. rewrite ExtractFacts.len_filter_zero in E.
  destruct (JsString.any keptChar token); [reflexivity | discriminate].
Qed.

Lemma itemWords_pushed viewport item :
  Forall Pushed (itemWords viewport item).
Proof.
  unfold itemWords. destruct (str item) as [s|]; [|constructor].
  destruct (JsString.isEmpty _); [constructor|].
  apply loop_pushed. constructor.
Qed.

Lemma extract_pushed textContent viewport w :
  In w (extractWordsFromTextContent textContent viewport) -> Pushed w.
Proof.
  destruct textContent as [items|]; [|intros []].
  rewrite ExtractFacts.extract_flat_map.
  intros H. apply in_flat_map in H as (item & _ & Hw).
  pose proof (itemWords_pushed viewport item) as Hall.
  apply (proj1 (List.Forall_forall _ _) Hall w Hw).
Qed.

Lemma Prim2SF_nan : Prim2SF PrimFloat.nan = SpecFloat.S754_nan.
Proof. reflexivity. Qed.

(** [Math.max(a, b)] is never below [b]. *)
Lemma Math_max_not_below (a b : float) : (Math_max a b <? b)%float = false.
Proof.
  unfold Math_max.
  destruct (PrimFloat.is_nan a || PrimFloat.is_nan b).
  - apply ltb_NaN. left. exact Prim2SF_nan.
  - destruct (a <? b)%float eqn:E1; [apply FloatOrder.ltb_irrefl|].
    destruct (b <? a)%float; [exact E1|].
    destruct (PrimFloat.is_zero a && PrimFloat.get_sign a);
      [apply FloatOrder.ltb_irrefl | exact E1].
Qed.

Lemma any_filter_nonempty (p : ascii -> bool) (s : string) :
  JsString.any p s = true -> JsString.filter p s <> EmptyString.
Proof.
  induction s as [|c s IH]; simpl; [discriminate|].
  destruct (p c); simpl; [discriminate | exact IH].
Qed.

(** X15: whatever the text content, every rectangle
    [extractWordsFromTextContent] returns holds a word that is not empty
    and is made only of the characters the cleaning keeps, is at least 12
    high (never below the minimum height), and has its centre at its
    midpoint: x + width / 2 and y + height / 2. *)
Theorem extracted_rectangles_are_well_formed
    (textContent : option (list TextItem)) (viewport : Viewport)
    (w : WordRect) :
  In w (extractWordsFromTextContent textContent viewport) ->
  word w <> EmptyString /\
  JsString.all keptChar (word w) = true /\
  (height w <? 12)%float = false /\
  centerX w = (x w + width w / 2)%float /\
  centerY w = (y w + height w / 2)%float.
Proof.
  intros H.
  destruct (extract_pushed textContent viewport w H)
    as (vp & t & charWidth & token & index & -> & Hk).
  unfold rectOf. cbv zeta. simpl.
  split; [apply any_filter_nonempty, Hk|].
  split; [apply all_filter|].
  split; [apply Math_max_not_below|]. split; reflexivity.
Qed.

Lemma extracted_rectangles_are_well_formed_witness :
  let items := [Samples.helloWorld
                  {| ta := 10; tb := 0; tc := 0; td := 10;
                     te := 100; tf := 700 |} 110] in
  let w := hd (Samples.square "none" 0)
             (extractWordsFromTextContent (Some items)
                Samples.viewport800) in
  word w = "hello" /\
  word w <> EmptyString /\
  JsString.all keptChar (word w) = true /\
  (height w <? 12)%float = false /\
  centerX w = (x w + width w / 2)%float /\
  centerY w = (y w + height w / 2)%float.
Proof.
  intros items w.
  assert (H : In w (extractWordsFromTextContent (Some items)
                      Samples.viewport800))
    by (vm_compute; left; reflexivity).
  split; [vm_compute; reflexivity|].
  exact (extracted_rectangles_are_well_formed (Some items)
           Samples.viewport800 w H).
Defined.

(** X16: when the point's x or y or the threshold is NaN, [findWordAtPoint]
    returns null, whatever the rectangles: no comparison of the first loop
    holds, and no distance is below the limit of the second. *)
Theorem findWordAtPoint_not_a_number
    (words : list WordRect) (px py threshold : float) :
  PrimFloat.is_nan px || PrimFloat.is_nan py || PrimFloat.is_nan threshold
    = true ->
  findWordAtPoint words px py threshold = None.
Proof.
  intros H.
  assert (Hn : NaN px \/ NaN py \/ NaN threshold).
  { apply orb_true_iff in H as [H | H];
      [apply orb_true_iff in H as [H | H]|];
      [left | right; left | right; right]; apply is_nan_NaN, H. }
  unfold findWordAtPoint. rewrite (firstInside_NaN words _ _ _ Hn).
  apply nearestFrom_none. intros w.
  destruct Hn as [Hx | [Hy | Ht]].
  - apply ltb_NaN. left. apply distanceTo_NaN. left. exact Hx.
  - apply ltb_NaN. left. apply distanceTo_NaN. right. exact Hy.
  - apply ltb_NaN. right. apply mul_NaN. left. exact Ht.
Qed.

Lemma findWordAtPoint_not_a_number_witness :
  findWordAtPoint [Samples.square "a" 0; Samples.square "b" 5]
    PrimFloat.nan 3 5 = None.
Proof.
  apply findWordAtPoint_not_a_number. reflexivity.
Defined.

End EdgeFacts.
